(** * a11y-audit: the accessibility crawler of [crawler.ts]

    A shallow embedding of [AccessibilityCrawler] and [main]:
    the URL normaliser and classifiers, the budgeted depth-first crawl,
    the Markdown report, resource cleanup and the command-line budget.

    Strings are byte strings (UTF-8), which is exact for everything the
    program does with them: equality, concatenation, suffix tests against
    ASCII extensions, and ASCII case mapping of URL path names (which the
    platform serialises in ASCII) and of the four severity keys. *)

From Stdlib Require Import ZArith String Ascii List Bool Lia.
From Stdlib Require Import Uint63 PrimFloat.
From stdpp Require Import base gmap sets list strings pretty.

Local Open Scope string_scope.
Local Open Scope list_scope.
Local Open Scope Z_scope.

(** ** JavaScript string primitives used by the program *)

Module JSString.

Definition LF : string := String (ascii_of_nat 10) EmptyString.

(** [String.prototype.startsWith]. *)
Definition startsWith (s pre : string) : bool := String.prefix pre s.

(** [String.prototype.endsWith]: [suf] closes [s] when [s] is [suf]
    itself or [suf] closes the tail of [s]. *)
Fixpoint endsWith (s suf : string) : bool :=
  if String.eqb s suf then true
  else match s with
       | EmptyString => false
       | String _ s' => endsWith s' suf
       end.

Definition lower_ascii (c : ascii) : ascii :=
  let n := nat_of_ascii c in
  if (65 <=? n)%nat && (n <=? 90)%nat then ascii_of_nat (n + 32) else c.

Definition upper_ascii (c : ascii) : ascii :=
  let n := nat_of_ascii c in
  if (97 <=? n)%nat && (n <=? 122)%nat then ascii_of_nat (n - 32) else c.

Fixpoint map_chars (f : ascii -> ascii) (s : string) : string :=
  match s with
  | EmptyString => EmptyString
  | String c s' => String (f c) (map_chars f s')
  end.

(** [toLowerCase] / [toUpperCase] on ASCII text. *)
Definition toLowerCase : string -> string := map_chars lower_ascii.
Definition toUpperCase : string -> string := map_chars upper_ascii.

(** JavaScript truthiness of a string: every string but the empty one. *)
Definition truthy (s : string) : bool := negb (String.eqb s "").

(** Split at the first occurrence of [c]; [None] when [c] is absent. *)
Fixpoint cut (c : ascii) (s : string) : string * option string :=
  match s with
  | EmptyString => (EmptyString, None)
  | String a s' =>
      if Ascii.eqb a c then (EmptyString, Some s')
      else let '(l, r) := cut c s' in (String a l, r)
  end.

End JSString.
Import JSString.

(** ** The platform's URL objects

    [new URL(s)] is the runtime's WHATWG parser, not code of this
    repository.  A parsed URL is kept as the values the program reads
    from it: [origin], [hostname], [pathname], its serialisation without
    the fragment, and the fragment itself ([None] when the URL has none,
    [Some ""] for a bare trailing [#]). *)

Record URL := mkURL {
  url_origin : string;
  url_hostname : string;
  url_pathname : string;
  url_sans_fragment : string;
  url_fragment : option string
}.

(** The [href] getter: the URL serialiser. *)
Definition href (u : URL) : string :=
  match url_fragment u with
  | None => url_sans_fragment u
  | Some f => url_sans_fragment u +:+ "#" +:+ f
  end.

(** The [hash] setter called with the empty string: the fragment becomes
    absent and nothing else changes. *)
Definition set_hash_empty (u : URL) : URL :=
  mkURL (url_origin u) (url_hostname u) (url_pathname u)
        (url_sans_fragment u) None.

(** Two URLs that differ at most in their fragment. *)
Definition same_but_fragment (u v : URL) : Prop :=
  url_origin u = url_origin v /\ url_hostname u = url_hostname v /\
  url_pathname u = url_pathname v /\
  url_sans_fragment u = url_sans_fragment v.

(** A reference parser for plain lower-case [http(s)://host[:port]/path?query#fragment]
    strings: no credentials, no percent-encoding, no dot segments, no
    default-port elision.  It stands in for the platform parser in the
    executable examples; the theorems hold for every parser. *)
Module SimpleURL.

Definition split_scheme (s : string) : option (string * string) :=
  if startsWith s "https://" then Some ("https", substring 8 (String.length s - 8) s)
  else if startsWith s "http://" then Some ("http", substring 7 (String.length s - 7) s)
  else None.

Definition parse (s : string) : option URL :=
  let '(before_hash, frag) := cut "#" s in
  let '(before_query, qry) := cut "?" before_hash in
  match split_scheme before_query with
  | None => None
  | Some (scheme, rest) =>
      let '(authority, p) := cut "/" rest in
      let hostname := fst (cut ":" authority) in
      if String.eqb hostname "" then None else
      let pathname := match p with Some p' => "/" +:+ p' | None => "/" end in
      let search := match qry with Some q => "?" +:+ q | None => "" end in
      let origin := scheme +:+ "://" +:+ authority in
      Some (mkURL origin hostname pathname (origin +:+ pathname +:+ search) frag)
  end.

End SimpleURL.

(** ** URL normaliser and classifiers ([crawler.ts], lines 127-184) *)

Section Classifier.

(** [new URL(s)]: [None] when the constructor throws. *)
Variable URL_parse : string -> option URL.

(** [normalizeUrl] (lines 127-135). *)
Definition normalizeUrl (url : string) : string :=
  match URL_parse url with
  | Some parsed => href (set_hash_empty parsed)
  | None => url
  end.

(** [isInternalUrl] (lines 137-143); [baseUrl] is [this.baseUrl]. *)
Definition isInternalUrl (baseUrl url : string) : bool :=
  match URL_parse url with
  | Some u => String.eqb (url_origin u) baseUrl
  | None => false
  end.

Definition fileExtensions : list string :=
  [ ".pdf"; ".zip"; ".doc"; ".docx"; ".xls"; ".xlsx"; ".ppt"; ".pptx";
    ".jpg"; ".jpeg"; ".png"; ".gif"; ".svg"; ".webp"; ".ico";
    ".mp4"; ".avi"; ".mov"; ".wmv"; ".mp3"; ".wav";
    ".xml"; ".json"; ".csv"; ".txt";
    ".dmg"; ".exe"; ".pkg"; ".deb"; ".rpm" ].

(** [isWebPage] (lines 145-184). *)
Definition isWebPage (url : string) : bool :=
  match URL_parse url with
  | Some u =>
      let pathname := toLowerCase (url_pathname u) in
      negb (existsb (fun ext => endsWith pathname ext) fileExtensions)
  | None => true
  end.

End Classifier.

(** ** Data model ([crawler.ts], lines 21-35) *)

(** One affected element of an axe violation ([NodeResult]). *)
Record NodeResult := mkNode {
  node_html : string;
  node_failureSummary : option string
}.

(** One axe violation.  [v_impact] is [None] for a [null] or missing
    impact; any string the engine reports is kept as it is. *)
Record Violation := mkViolation {
  v_id : string;
  v_impact : option string;
  v_help : string;
  v_description : string;
  v_helpUrl : string;
  v_nodes : list NodeResult
}.

Record AxeResults := mkAxe { violations : list Violation }.

Record Audit := mkAudit {
  audit_score : option float;
  audit_scoreDisplayMode : string;
  audit_title : string;
  audit_description : string
}.

(** The part of a Lighthouse result the report reads:
    [categories.accessibility.score] and [Object.values(audits)]. *)
Record LighthouseResult := mkLhr {
  lh_score : option float;
  lh_audits : list Audit
}.

Record PageResult := mkPageResult {
  pr_url : string;
  pr_axeResults : AxeResults;
  pr_lighthouseResults : option LighthouseResult;
  pr_timestamp : string
}.

(** The fields of [AccessibilityCrawler].  [browser] and [context] record
    whether the handle is non-null; [maxPages] is an integer, as is every
    finite budget the program passes to the constructor ([parseInt] or
    10; see [maxPages_of_args] for the infinite ones). *)
Record Crawler := mkCrawler {
  browser : bool;
  context : bool;
  visitedUrls : gset string;
  baseUrl : string;
  maxPages : Z;
  results : list PageResult
}.

Definition cdpPort : Z := 9222.

(** ** Effects and the outside world *)

(** Console output and calls to the browser and the analysis engines, in
    the order the program performs them. *)
Inductive Event :=
| LogCrawling (url : string) (size : nat) (budget : Z)
| ErrLighthouse (url : string)
| ErrCrawling (url : string)
| CallNewPage
| CallGoto (url : string)
| CallAxe (url : string)
| CallLighthouse (url : string) (port : Z)
| CallExtractLinks (url : string)
| CallClosePage (url : string)
| CallCloseContext
| CallCloseBrowser.

(** What [lighthouse(...)] does: throw, resolve to [undefined], or resolve
    to a runner result. *)
Inductive LighthouseOutcome :=
| LhThrows
| LhUndefined
| LhResult (lhr : LighthouseResult).

(** How the outside world answers while one page is open.  A [false] or
    [None] is a rejected promise. *)
Record PageBehaviour := mkBehaviour {
  pb_newPage : bool;
  pb_goto : bool;
  pb_axe : option AxeResults;
  pb_lighthouse : LighthouseOutcome;
  pb_now : string;
  pb_anchors : option (list string);
  pb_close : bool
}.

(** The world is an oracle: given everything the program has done so far
    and the URL it is about to open, the behaviour of that page visit. *)
Definition World := list Event -> string -> PageBehaviour.

(** A running crawler: the object, the effects so far (newest first) and
    every earlier state of the object (newest first). *)
Record Machine := mkMachine {
  this : Crawler;
  effects : list Event;
  history : list Crawler
}.

Definition emit (e : Event) (m : Machine) : Machine :=
  mkMachine (this m) (e :: effects m) (history m).

Definition mutate (f : Crawler -> Crawler) (m : Machine) : Machine :=
  mkMachine (f (this m)) (effects m) (this m :: history m).

(** Every state the crawler object has been in, up to now. *)
Definition states (m : Machine) : list Crawler := this m :: history m.

(** [this.visitedUrls.add(n)] and [this.results.push(r)]. *)
Definition add_visited (n : string) (c : Crawler) : Crawler :=
  mkCrawler (browser c) (context c) ({[ n ]} ∪ visitedUrls c)
            (baseUrl c) (maxPages c) (results c).

Definition push_result (r : PageResult) (c : Crawler) : Crawler :=
  mkCrawler (browser c) (context c) (visitedUrls c)
            (baseUrl c) (maxPages c) (results c ++ [r]).

(** [this.visitedUrls.size >= this.maxPages] *)
Definition budget_exhausted (c : Crawler) : bool :=
  maxPages c <=? Z.of_nat (size (visitedUrls c)).

(** ** The crawl controller ([crawler.ts], lines 37-125) *)

Section Crawl.

Variable URL_parse : string -> option URL.
Variable web : World.

(** The constructor (lines 37-40); [None] when [new URL] throws.  An
    omitted [maxPages] is 10. *)
Definition construct (startUrl : string) (maxPages : option Z) : option Crawler :=
  match URL_parse startUrl with
  | Some u => Some (mkCrawler false false ∅ (url_origin u) (default 10 maxPages) [])
  | None => None
  end.

(** [initialize] (lines 42-47): the flag says whether it returned
    normally; [launch] and [newContext] say whether those calls did. *)
Definition initialize (launch newContext : bool) (m : Machine)
  : Machine * bool :=
  if negb launch then (m, false) else
  let m := mutate (fun c => mkCrawler true (context c) (visitedUrls c)
                              (baseUrl c) (maxPages c) (results c)) m in
  if negb newContext then (m, false) else
  (mutate (fun c => mkCrawler (browser c) true (visitedUrls c)
                      (baseUrl c) (maxPages c) (results c)) m, true).

(** [extractLinks] (lines 118-125): the anchors' [href]s that start
    with [http]. *)
Definition extractLinks (anchors : list string) : list string :=
  List.filter (fun href => startsWith href "http") anchors.

(** The [for ... of links] loop (lines 106-109), with its [break]. *)
Fixpoint for_links (visit : Machine -> string -> option Machine)
    (m : Machine) (links : list string) : option Machine :=
  match links with
  | [] => Some m
  | link :: rest =>
      if budget_exhausted (this m) then Some m
      else match visit m link with
           | Some m' => for_links visit m' rest
           | None => None
           end
  end.

(** The [catch] of line 113. *)
Definition catch_crawl (normalizedUrl : string) (m : Machine) : Machine :=
  emit (ErrCrawling normalizedUrl) m.

(** The body of [crawl] from the reservation (line 68) up to the loop
    over the extracted links: reserve, log, open the page, analyse it,
    push the result, extract the links and close the page.  The second
    component is [Some links] when control reaches the loop of line 106,
    and [None] when the method is done (budget reached at line 102, or an
    exception caught at line 113). *)
Definition open_page (m : Machine) (normalizedUrl : string)
  : Machine * option (list string) :=
  let m := mutate (add_visited normalizedUrl) m in
  let m := emit (LogCrawling normalizedUrl (size (visitedUrls (this m)))
                             (maxPages (this m))) m in
  let w := web (effects m) normalizedUrl in
  let m := emit CallNewPage m in
  if negb (pb_newPage w) then (catch_crawl normalizedUrl m, None) else
  let m := emit (CallGoto normalizedUrl) m in
  if negb (pb_goto w) then (catch_crawl normalizedUrl m, None) else
  let m := emit (CallAxe normalizedUrl) m in
  match pb_axe w with
  | None => (catch_crawl normalizedUrl m, None)
  | Some axeResults =>
    let m := emit (CallLighthouse normalizedUrl cdpPort) m in
    let '(m, lighthouseResults) :=
      match pb_lighthouse w with
      | LhThrows => (emit (ErrLighthouse normalizedUrl) m, None)
      | LhUndefined => (m, None)
      | LhResult lhr => (m, Some lhr)
      end in
    let m := mutate (push_result
               (mkPageResult normalizedUrl axeResults lighthouseResults
                             (pb_now w))) m in
    if negb (budget_exhausted (this m)) then
      let m := emit (CallExtractLinks normalizedUrl) m in
      match pb_anchors w with
      | None => (catch_crawl normalizedUrl m, None)
      | Some anchors =>
        let links := extractLinks anchors in
        let m := emit (CallClosePage normalizedUrl) m in
        if negb (pb_close w) then (catch_crawl normalizedUrl m, None)
        else (m, Some links)
      end
    else
      let m := emit (CallClosePage normalizedUrl) m in
      if negb (pb_close w) then (catch_crawl normalizedUrl m, None)
      else (m, None)
  end.

(** The two guards of [crawl] (lines 50-55 and 60-66). *)
Definition not_ready (c : Crawler) : bool :=
  negb (browser c) || negb (context c) || budget_exhausted c.

Definition rejected (c : Crawler) (normalizedUrl : string) : bool :=
  bool_decide (normalizedUrl ∈ visitedUrls c)
  || negb (isInternalUrl URL_parse (baseUrl c) normalizedUrl)
  || negb (isWebPage URL_parse normalizedUrl).

(** [crawl] (lines 49-116).  The recursion is bounded by [fuel]; [None]
    means the fuel ran out, which [crawl_total] rules out for
    [enough_fuel].  The method itself never throws: everything after the
    reservation is inside the [try], and the recursive calls do not
    throw either. *)
Fixpoint crawl (fuel : nat) (m : Machine) (url : string) : option Machine :=
  match fuel with
  | O => None
  | S fuel =>
    if not_ready (this m) then Some m else
    let normalizedUrl := normalizeUrl URL_parse url in
    if rejected (this m) normalizedUrl then Some m else
    let '(m, next) := open_page m normalizedUrl in
    match next with
    | Some links => for_links (crawl fuel) m links
    | None => Some m
    end
  end.

(** Fuel that always suffices: one level per page still in the budget,
    plus the call itself. *)
Definition budget_left (c : Crawler) : nat :=
  Z.to_nat (maxPages c - Z.of_nat (size (visitedUrls c))).

Definition enough_fuel (m : Machine) : nat := S (budget_left (this m)).

(** [close] (lines 346-353): the flag says whether it returned normally;
    [ctx_ok] and [br_ok] say whether the two [close()] calls do. *)
Definition close (ctx_ok br_ok : bool) (m : Machine) : Machine * bool :=
  let '(m, ok) :=
    if context (this m)
    then (emit CallCloseContext m, ctx_ok)
    else (m, true) in
  if negb ok then (m, false) else
  if browser (this m)
  then (emit CallCloseBrowser m, br_ok)
  else (m, true).

End Crawl.

(** ** The Markdown report ([crawler.ts], lines 186-344) *)

(** Concatenation of the pieces of a template literal. *)
Definition cat (pieces : list string) : string :=
  fold_right String.append "" pieces.

(** [`${n}`] for a non-negative integer. *)
Definition show_nat (n : nat) : string := pretty n.

(** [v.impact === key] *)
Definition impact_is (key : string) (v : Violation) : bool :=
  match v_impact v with
  | Some s => String.eqb s key
  | None => false
  end.

(** [`${violation.impact}`] *)
Definition show_impact (v : Violation) : string :=
  match v_impact v with
  | Some s => s
  | None => "null"
  end.

(** The [byImpact] object (lines 279-292) as [Object.entries] lists it. *)
Definition byImpact (vs : list Violation) : list (string * list Violation) :=
  [ ("critical", List.filter (impact_is "critical") vs);
    ("serious", List.filter (impact_is "serious") vs);
    ("moderate", List.filter (impact_is "moderate") vs);
    ("minor", List.filter (impact_is "minor") vs) ].

(** The four severities the report knows, whether a violation carries one
    of them, and how many violations the four groups hold together. *)
Definition severities : list string :=
  [ "critical"; "serious"; "moderate"; "minor" ].

Definition named_severity (v : Violation) : bool :=
  existsb (fun key => impact_is key v) severities.

Definition group_total (vs : list Violation) : nat :=
  fold_right (fun entry sum => (length (snd entry) + sum)%nat) 0%nat (byImpact vs).

Definition impact_emoji (impact : string) : string :=
  if String.eqb impact "critical" then "🔴"
  else if String.eqb impact "serious" then "🟠"
  else if String.eqb impact "moderate" then "🟡"
  else "🔵".

(** The element loop of lines 318-328; [i] is the loop index and [nodes]
    what is left of the first [Math.min(length, 3)] nodes. *)
Fixpoint render_nodes (i : nat) (nodes : list NodeResult) : string :=
  match nodes with
  | [] => ""
  | node :: rest =>
      cat [ "**Element "; show_nat (i + 1); ":**"; LF; "```html"; LF;
            node_html node; LF; "```"; LF;
            match node_failureSummary node with
            | Some s => if truthy s then cat [s; LF; LF] else ""
            | None => ""
            end;
            render_nodes (S i) rest ]
  end.

(** One violation (lines 310-335). *)
Definition render_violation (v : Violation) : string :=
  let n := length (v_nodes v) in
  cat [ "**"; v_help v; "**"; LF; LF;
        "- **Description:** "; v_description v; LF;
        "- **Impact:** "; show_impact v; LF;
        "- **Affected Elements:** "; show_nat n; LF;
        "- **Learn More:** ["; v_id v; "]("; v_helpUrl v; ")"; LF; LF;
        if (0 <? n)%nat then
          cat [ "<details>"; LF; "<summary>View affected elements</summary>"; LF; LF;
                render_nodes 0 (take (Nat.min n 3) (v_nodes v));
                if (3 <? n)%nat
                then cat [ "... and "; show_nat (n - 3); " more element(s)"; LF; LF ]
                else "";
                "</details>"; LF; LF ]
        else "" ].

(** One severity group (lines 294-337); an empty group is skipped. *)
Definition render_group (entry : string * list Violation) : string :=
  let '(impact, vs) := entry in
  if (length vs =? 0)%nat then ""
  else cat [ "#### "; impact_emoji impact; " "; toUpperCase impact;
             " ("; show_nat (length vs); ")"; LF; LF;
             cat (map render_violation vs) ].

(** The axe block of a page (lines 272-338). *)
Definition render_axe (a : AxeResults) : string :=
  if (length (violations a) =? 0)%nat
  then cat [ "### ✅ Axe-core: No violations found!"; LF; LF ]
  else cat [ "### Axe-core Violations ("; show_nat (length (violations a)); ")";
             LF; LF;
             cat (map render_group (byImpact (violations a))) ].

(** [score! * 100]: a [null] score is [0] in arithmetic. *)
Definition score100 (l : LighthouseResult) : float :=
  (match lh_score l with Some s => s | None => 0 end * 100)%float.

(** [x >= y] on numbers. *)
Definition num_ge (x y : float) : bool := PrimFloat.leb y x.

Definition num_of_nat (n : nat) : float :=
  PrimFloat.of_uint63 (Uint63.of_Z (Z.of_nat n)).

(** The filter of lines 253-258. *)
Definition failed_audit (a : Audit) : bool :=
  match audit_score a with
  | Some s => PrimFloat.ltb s 1
              && negb (String.eqb (audit_scoreDisplayMode a) "notApplicable")
  | None => false
  end.

Definition render_audit (a : Audit) : string :=
  cat [ "- **"; audit_title a; "**"; LF;
        if truthy (audit_description a)
        then cat [ "  "; audit_description a; LF ] else "" ].

Section Report.

(** [Number.prototype.toFixed] and the two date renderings are the
    runtime's: [toLocaleString t] renders the instant [t] (milliseconds
    since the epoch), [Date_parse] reads a stored time stamp. *)
Variable toFixed : nat -> float -> string.
Variable toLocaleString : Z -> string.
Variable Date_parse : string -> option Z.

(** [new Date(ts).toLocaleString()] *)
Definition locale_of_timestamp (ts : string) : string :=
  match Date_parse ts with
  | Some t => toLocaleString t
  | None => "Invalid Date"
  end.

(** The Lighthouse block of a page (lines 243-270). *)
Definition render_lighthouse (l : LighthouseResult) : string :=
  let score := score100 l in
  let emoji := if num_ge score 90 then "🟢"
               else if num_ge score 50 then "🟡" else "🔴" in
  let failedAudits := List.filter failed_audit (lh_audits l) in
  cat [ "### "; emoji; " Lighthouse Accessibility Score: "; toFixed 0 score;
        "/100"; LF; LF;
        if (0 <? length failedAudits)%nat
        then cat [ "**Lighthouse Issues ("; show_nat (length failedAudits); "):**";
                   LF; LF; cat (map render_audit failedAudits); LF ]
        else "" ].

(** One page section (lines 236-341). *)
Definition render_page (r : PageResult) : string :=
  cat [ "## Page: "; pr_url r; LF; LF;
        "**Analyzed:** "; locale_of_timestamp (pr_timestamp r); LF; LF;
        match pr_lighthouseResults r with
        | Some l => render_lighthouse l
        | None => ""
        end;
        render_axe (pr_axeResults r);
        "---"; LF; LF ].

Definition count_impact (key : string) (rs : list PageResult) : nat :=
  fold_left (fun sum r =>
    (sum + length (List.filter (impact_is key) (violations (pr_axeResults r))))%nat)
    rs 0%nat.

(** Everything the report prints after its [Generated] line
    (lines 189-343). *)
Definition report_body (rs : list PageResult) : string :=
  let totalViolations :=
    fold_left (fun sum r => (sum + length (violations (pr_axeResults r)))%nat)
              rs 0%nat in
  let criticalIssues := count_impact "critical" rs in
  let seriousIssues := count_impact "serious" rs in
  let lighthouseScores :=
    omap (fun r => score100 <$> pr_lighthouseResults r) rs in
  let avgLighthouseScore :=
    if (0 <? length lighthouseScores)%nat
    then toFixed 1 (fold_left PrimFloat.add lighthouseScores 0%float
                    / num_of_nat (length lighthouseScores))%float
    else "N/A" in
  cat [ "**Pages Analyzed:** "; show_nat (length rs); LF; LF;
        "## Summary"; LF; LF;
        "### Axe-core Results"; LF; LF;
        "- **Total Violations:** "; show_nat totalViolations; LF;
        "- **Critical Issues:** "; show_nat criticalIssues; LF;
        "- **Serious Issues:** "; show_nat seriousIssues; LF; LF;
        "### Lighthouse Results"; LF; LF;
        "- **Average Accessibility Score:** "; avgLighthouseScore;
        (if negb (String.eqb avgLighthouseScore "N/A") then "/100" else "");
        LF; LF;
        "---"; LF; LF;
        cat (map render_page rs) ].

(** [generateMarkdownReport] (lines 186-344); [clock] is what [new Date()]
    reads when the method runs. *)
Definition generateMarkdownReport (clock : Z) (c : Crawler) : string :=
  cat [ "# Accessibility Report"; LF; LF;
        "**Generated:** "; toLocaleString clock; LF;
        report_body (results c) ].

End Report.

(** ** The entry point ([crawler.ts], lines 357-415) *)

Module JSNumber.

(** The byte sequences of the code points [parseInt] skips as white space
    (tab, line feed, vertical tab, form feed, carriage return, space,
    U+00A0, U+1680, U+2000-U+200A, U+2028, U+2029, U+202F, U+205F, U+3000,
    U+FEFF). *)
Definition bytes (l : list nat) : string :=
  fold_right (fun n s => String (ascii_of_nat n) s) EmptyString l.

Definition white_space_codes : list (list nat) :=
  [ [9]; [10]; [11]; [12]; [13]; [32]; [194; 160]; [225; 154; 128];
    [226; 128; 128]; [226; 128; 129]; [226; 128; 130]; [226; 128; 131];
    [226; 128; 132]; [226; 128; 133]; [226; 128; 134]; [226; 128; 135];
    [226; 128; 136]; [226; 128; 137]; [226; 128; 138];
    [226; 128; 168]; [226; 128; 169]; [226; 128; 175]; [226; 129; 159];
    [227; 128; 128]; [239; 187; 191] ]%nat.

Definition white_space : list string := map bytes white_space_codes.

(** Length of the white-space sequence [s] starts with, if any. *)
Definition white_space_at (s : string) : option nat :=
  String.length <$> List.find (fun w => startsWith s w) white_space.

(** Drop leading white space; [skip] bytes are still owed to the sequence
    being dropped. *)
Fixpoint trim_start (skip : nat) (s : string) : string :=
  match s with
  | EmptyString => EmptyString
  | String _ s' =>
      match skip with
      | S k => trim_start k s'
      | O => match white_space_at s with
             | Some (S k) => trim_start k s'
             | _ => s
             end
      end
  end.

(** The value of a digit in radix [r], if it is one. *)
Definition digit_value (r : Z) (c : ascii) : option Z :=
  let n := Z.of_nat (nat_of_ascii c) in
  let v := if (48 <=? n) && (n <=? 57) then Some (n - 48)
           else if (97 <=? n) && (n <=? 122) then Some (n - 87)
           else if (65 <=? n) && (n <=? 90) then Some (n - 55)
           else None in
  match v with
  | Some d => if d <? r then Some d else None
  | None => None
  end.

(** The longest prefix of radix-[r] digits, most significant first;
    [acc] is [None] until a digit has been read. *)
Fixpoint digits (r : Z) (acc : option Z) (s : string) : option Z :=
  match s with
  | EmptyString => acc
  | String c s' =>
      match digit_value r c with
      | Some d => digits r (Some (match acc with Some a => a * r + d | None => d end)) s'
      | None => acc
      end
  end.

(** What [parseInt] returns: a Number that is [NaN], an integer or an
    infinity.  Both zeros are [Finite 0]; the program only tests them
    for truth. *)
Inductive Number :=
| NaN
| Finite (z : Z)
| Infinity (negative : bool).

(** The Number for the integer [n].  Below [2^53] in magnitude it is [n];
    from there on it is the nearest double, which keeps 53 significant
    bits and takes the even neighbour at a tie, and it is an infinity
    from [2^1024 - 2^970] on.  The language leaves the digits after the
    20th of a decimal to the implementation; all of them count here, as
    they do in the engines. *)
Definition round_to_double (n : Z) : Number :=
  let a := Z.abs n in
  if a <? 2 ^ 53 then Finite n else
  let e := Z.log2 a - 52 in
  let q := a / 2 ^ e in
  let r := a mod 2 ^ e in
  let q' := if (2 ^ (e - 1) <? r) || ((r =? 2 ^ (e - 1)) && Z.odd q)
            then q + 1 else q in
  if 2 ^ 1024 <=? q' * 2 ^ e then Infinity (n <? 0)
  else Finite (Z.sgn n * (q' * 2 ^ e)).

(** The integer [parseInt(s)] reads with no radix argument, sign
    included: leading white space is skipped, then a sign, then [0x] or
    [0X] selects radix 16, then the longest run of digits counts.
    [None] when there is no digit. *)
Definition read_integer (s : string) : option Z :=
  let s := trim_start 0 s in
  let '(sign, s) :=
    match s with
    | String "-" s' => (-1, s')
    | String "+" s' => (1, s')
    | _ => (1, s)
    end in
  let '(radix, s) :=
    match s with
    | String "0" (String "x" s') => (16, s')
    | String "0" (String "X" s') => (16, s')
    | _ => (10, s)
    end in
  match digits radix None s with
  | Some n => Some (sign * n)
  | None => None
  end.

(** [parseInt(s)]: the Number for the integer read, [NaN] without one. *)
Definition parseInt (s : string) : Number :=
  match read_integer s with
  | Some n => round_to_double n
  | None => NaN
  end.

(** Truth of a Number, as [||] tests it: [NaN] and the zeros are falsy. *)
Definition number_truthy (x : Number) : bool :=
  match x with
  | NaN => false
  | Finite z => negb (z =? 0)
  | Infinity _ => true
  end.

End JSNumber.
Import JSNumber.

(** [args.indexOf(x)], [None] for [-1]. *)
Fixpoint indexOf (x : string) (args : list string) : option nat :=
  match args with
  | [] => None
  | a :: rest => if String.eqb a x then Some 0%nat
                 else S <$> indexOf x rest
  end.

(** The value after option [name], when the option is present and the
    value is a non-empty string (lines 373-377 and 382-386). *)
Definition option_value (name : string) (args : list string) : option string :=
  match indexOf name args with
  | Some i => match args !! (i + 1)%nat with
              | Some v => if truthy v then Some v else None
              | None => None
              end
  | None => None
  end.

(** The page budget [main] computes (lines 373-377):
    [parseInt(value) || 10], or [10] without a value. *)
Definition budget_of_args (args : list string) : Number :=
  match option_value "--max-pages" args with
  | Some v => let n := parseInt v in
              if number_truthy n then n else Finite 10
  | None => Finite 10
  end.

(** That budget as the integer the crawler is constructed with: the
    budget itself whenever it is finite.  An infinite budget, which the
    integers from [2^1024 - 2^970] on give, has no integer; it is passed
    on as [2^1024] with its sign, which like it lies beyond every
    double, so the crawler's comparisons with set sizes come out the
    same while its [Crawling:] lines show that integer. *)
Definition maxPages_of_args (args : list string) : Z :=
  match budget_of_args args with
  | Finite z => z
  | NaN => 10
  | Infinity negative => if negative then - 2 ^ 1024 else 2 ^ 1024
  end.

(** [s.replace(/\./g, "-")] and [s.replace(/[:.]/g, "-")]. *)
Definition dots_to_dashes : string -> string :=
  map_chars (fun c => if Ascii.eqb c "." then "-"%char else c).

Definition colons_dots_to_dashes : string -> string :=
  map_chars (fun c => if Ascii.eqb c ":" || Ascii.eqb c "." then "-"%char else c).

(** How a run of [main] ends: [process.exit(code)], or the promise
    [main()] returns is fulfilled or rejected. *)
Inductive Outcome :=
| Exited (code : Z)
| Fulfilled
| Rejected.

Inductive MainEvent :=
| ErrUsage
| Mkdir (path : string)
| LogStart (startUrl : string) (maxPages : Number)
| WriteFile (path : string) (content : string)
| LogReport (path : string)
| ErrTop.

(** What the outside world does during one run of [main], besides
    serving pages. *)
Record MainWorld := mkMainWorld {
  mw_launch : bool;
  mw_newContext : bool;
  mw_write : bool;
  mw_close_context : bool;
  mw_close_browser : bool;
  mw_iso_now : string;
  mw_report_clock : Z
}.

Record MainRun := mkMainRun {
  outcome : Outcome;
  main_events : list MainEvent;
  crawler : option Machine
}.

Section Main.

Variable URL_parse : string -> option URL.
Variable web : World.
Variable toFixed : nat -> float -> string.
Variable toLocaleString : Z -> string.
Variable Date_parse : string -> option Z.
Variable mw : MainWorld.

(** A crawl with fuel that suffices; see [crawl_total]. *)
Definition crawl_run (m : Machine) (url : string) : Machine :=
  match crawl URL_parse web (enough_fuel m) m url with
  | Some m' => m'
  | None => m
  end.

(** [main] (lines 357-415); [args] is [process.argv.slice(2)].
    [main_events] are oldest first. *)
Definition main (args : list string) : MainRun :=
  match args with
  | [] => mkMainRun (Exited 1) [ErrUsage] None
  | startUrl :: _ =>
    if negb (truthy startUrl) || startsWith startUrl "--"
    then mkMainRun (Exited 1) [ErrUsage] None else
    let maxPages := budget_of_args args in
    match URL_parse startUrl,
          construct URL_parse startUrl (Some (maxPages_of_args args)) with
    | Some u, Some c =>
      let urlHostname := dots_to_dashes (url_hostname u) in
      let iso := colons_dots_to_dashes (mw_iso_now mw) in
      let datetime := substring 0 (String.length iso - 5) iso in
      let outputFile :=
        match option_value "--output" args with
        | Some f => f
        | None => cat [ "reports/"; urlHostname; "-"; datetime; ".md" ]
        end in
      let ev := [ Mkdir "reports"; LogStart startUrl maxPages ] in
      let m := mkMachine c [] [] in
      let '(m, ok) := initialize (mw_launch mw) (mw_newContext mw) m in
      if negb ok then mkMainRun (Exited 1) (ev ++ [ErrTop]) (Some m) else
      let m := crawl_run m startUrl in
      let report :=
        generateMarkdownReport toFixed toLocaleString Date_parse
                               (mw_report_clock mw) (this m) in
      let ev := ev ++ [ WriteFile outputFile report ] in
      if negb (mw_write mw) then mkMainRun (Exited 1) (ev ++ [ErrTop]) (Some m) else
      let ev := ev ++ [ LogReport outputFile ] in
      let '(m, closed) := close (mw_close_context mw) (mw_close_browser mw) m in
      mkMainRun (if closed then Fulfilled else Rejected) ev (Some m)
    | _, _ => mkMainRun Rejected [] None
    end
  end.

End Main.

(** ** Sessions, traces and invariants *)

(** The URLs the trace shows as reserved (each [visitedUrls.add] is
    followed by its [Crawling:] line), navigated to, and analysed. *)
Definition reserved (evs : list Event) : list string :=
  omap (fun e => match e with LogCrawling n _ _ => Some n | _ => None end) evs.

Definition navigated (evs : list Event) : list string :=
  omap (fun e => match e with CallGoto n => Some n | _ => None end) evs.

Definition analysed (evs : list Event) : list string :=
  omap (fun e => match e with CallAxe n => Some n | _ => None end) evs.

(** [this.visitedUrls.size <= this.maxPages] *)
Definition within_budget (c : Crawler) : Prop :=
  Z.of_nat (size (visitedUrls c)) <= maxPages c.

Section Sessions.

Variable URL_parse : string -> option URL.
Variable web : World.

(** The states a session can be in: a crawler is constructed, may be
    initialised, and [crawl] and [close] are called on it any number of
    times with any URLs. *)
Inductive reachable : Machine -> Prop :=
| reach_new startUrl budget c :
    construct URL_parse startUrl budget = Some c ->
    reachable (mkMachine c [] [])
| reach_initialize m launch newContext :
    reachable m ->
    reachable (fst (initialize launch newContext m))
| reach_crawl m fuel url m' :
    reachable m ->
    crawl URL_parse web fuel m url = Some m' ->
    reachable m'
| reach_close m ctx_ok br_ok :
    reachable m ->
    reachable (fst (close ctx_ok br_ok m)).

(** What holds of the crawler object at every moment. *)
Record crawler_ok (c : Crawler) : Prop := mk_crawler_ok {
  ok_results_distinct : NoDup (map pr_url (results c));
  ok_results_visited : forall r, r ∈ results c -> pr_url r ∈ visitedUrls c;
  ok_visited_in_scope : forall n, n ∈ visitedUrls c ->
      isInternalUrl URL_parse (baseUrl c) n = true
      /\ isWebPage URL_parse n = true;
  ok_budget : 0 <= maxPages c -> within_budget c
}.

(** What holds of the trace at every moment. *)
Record trace_ok (m : Machine) : Prop := mk_trace_ok {
  ok_reserved_distinct : NoDup (reserved (effects m));
  ok_reserved_visited :
    forall n, n ∈ reserved (effects m) <-> n ∈ visitedUrls (this m);
  ok_navigated : navigated (effects m) `sublist_of` reserved (effects m);
  ok_analysed : analysed (effects m) `sublist_of` navigated (effects m);
  ok_results_analysed :
    reverse (map pr_url (results (this m))) `sublist_of` analysed (effects m)
}.

(** The crawler object only grows: between an earlier state [c] and a
    later state [c'] nothing is removed and the configuration is fixed. *)
Record grows (c c' : Crawler) : Prop := mk_grows {
  grows_visited : visitedUrls c ⊆ visitedUrls c';
  grows_results : results c `prefix_of` results c';
  grows_baseUrl : baseUrl c' = baseUrl c;
  grows_maxPages : maxPages c' = maxPages c
}.

(** A history (newest first) in which every state grew out of all the
    older ones. *)
Fixpoint monotone (cs : list Crawler) : Prop :=
  match cs with
  | [] => True
  | c :: older => Forall (fun o => grows o c) older /\ monotone older
  end.

(** The session invariant: every state the object has been in is sound,
    the trace is sound, and the object only ever grew. *)
Definition session_ok (m : Machine) : Prop :=
  Forall crawler_ok (states m) /\ trace_ok m /\ monotone (states m).

End Sessions.

(** [m'] continues [m]: the object grew, and the trace and the history
    were only extended. *)
Definition continues (m m' : Machine) : Prop :=
  grows (this m) (this m')
  /\ effects m `suffix_of` effects m'
  /\ states m `suffix_of` states m'
  /\ browser (this m') = browser (this m)
  /\ context (this m') = context (this m).

(** How one page visit changes the machine: either the target fails
    before its result is pushed, or exactly one result is pushed for it. *)
Inductive visit_shape (m : Machine) (n : string) (m1 : Machine) : Prop :=
| shape_failed :
    this m1 = add_visited n (this m) ->
    history m1 = this m :: history m ->
    results (this m1) = results (this m) ->
    (exists evs, effects m1 = ErrCrawling n :: evs) ->
    visit_shape m n m1
| shape_pushed r :
    pr_url r = n ->
    this m1 = push_result r (add_visited n (this m)) ->
    history m1 = add_visited n (this m) :: this m :: history m ->
    navigated (effects m1) = n :: navigated (effects m) ->
    analysed (effects m1) = n :: analysed (effects m) ->
    visit_shape m n m1.

(** ** A small site for the executable examples *)

Module Demo.

Definition no_violation : AxeResults := mkAxe [].

Definition page (anchors : list string) : PageBehaviour :=
  mkBehaviour true true (Some no_violation) LhUndefined
              "2025-09-29T23:42:29.123Z" (Some anchors) true.

(** [https://example.com/] links to two pages of the site (one of them
    twice, under two fragments), to another origin, to a PDF and to a
    mail address; page [a] links back and to a third page. *)
Definition site : World := fun _ url =>
  if String.eqb url "https://example.com/" then
    page [ "https://example.com/a#top"; "https://other.org/x";
           "https://example.com/doc.pdf"; "mailto:me@example.com";
           "https://example.com/a#end"; "https://example.com/b" ]
  else if String.eqb url "https://example.com/a" then
    page [ "https://example.com/"; "https://example.com/c" ]
  else page [].

(** The same site, but navigation to page [a] fails. *)
Definition broken_site : World := fun evs url =>
  if String.eqb url "https://example.com/a" then
    mkBehaviour true false None LhUndefined "" None true
  else site evs url.

Definition fresh (budget : Z) : Machine :=
  mkMachine (mkCrawler false false ∅ "https://example.com" budget []) [] [].

Definition start (budget : Z) : Machine :=
  fst (initialize true true (fresh budget)).

Definition run (w : World) (budget : Z) : Machine :=
  match crawl SimpleURL.parse w (enough_fuel (start budget)) (start budget)
              "https://example.com" with
  | Some m => m
  | None => start budget
  end.

(** Stand-ins for the runtime's number and date formatting. *)
Definition toFixed (digits : nat) (x : float) : string := "?".
(** The date rendering shows whole seconds. *)
Definition toLocaleString (t : Z) : string := pretty (t / 1000).
Definition Date_parse (ts : string) : option Z := None.

Definition quiet_world : MainWorld :=
  mkMainWorld true true true true true "2025-09-29T23:42:29.123Z" 0.

(** A violation whose impact is [null], and one that is critical. *)
Definition no_impact : Violation :=
  mkViolation "frame-tested" None "Frames should be tested"
              "Ensures frames contain the axe-core script"
              "https://dequeuniversity.com/rules/axe/frame-tested" [].

Definition critical_one : Violation :=
  mkViolation "image-alt" (Some "critical") "Images must have alternate text"
              "Ensures img elements have alternate text"
              "https://dequeuniversity.com/rules/axe/image-alt"
              [ mkNode "<img src=a.png>" (Some "Fix any of the following") ].

End Demo.

(** ** Further observations of a run *)

(** The counter and the budget each [Crawling:] line shows. *)
Definition crawling_lines (evs : list Event) : list (nat * Z) :=
  omap (fun e => match e with
                 | LogCrawling _ k b => Some (k, b)
                 | _ => None
                 end) evs.

(** The calls that close the context or the browser. *)
Definition is_handle_close (e : Event) : bool :=
  match e with
  | CallCloseContext | CallCloseBrowser => true
  | _ => false
  end.

(** [lhr?.lhr || null] (line 89, and [null] after the catch of line 90). *)
Definition lighthouse_result (o : LighthouseOutcome) : option LighthouseResult :=
  match o with
  | LhResult lhr => Some lhr
  | LhThrows | LhUndefined => None
  end.

(** The [totalViolations] of the summary (lines 192-195). *)
Definition total_violations (rs : list PageResult) : nat :=
  fold_left (fun sum r => (sum + length (violations (pr_axeResults r)))%nat)
            rs 0%nat.

(** All violations of a session, page after page. *)
Definition all_violations (rs : list PageResult) : list Violation :=
  concat (map (fun r => violations (pr_axeResults r)) rs).

(** The [Crawling:] lines count the reservations and show the budget. *)
Definition lines_ok (m : Machine) : Prop :=
  map fst (crawling_lines (effects m))
  = reverse (seq 1 (size (visitedUrls (this m))))
  /\ Forall (fun l => snd l = maxPages (this m)) (crawling_lines (effects m)).

(** A link has been dealt with once its canonical form is in the visited
    set, or is outside the base origin, or is not a web page. *)
Definition handled (URL_parse : string -> option URL) (c : Crawler)
    (link : string) : Prop :=
  let k := normalizeUrl URL_parse link in
  k ∈ visitedUrls c
  \/ isInternalUrl URL_parse (baseUrl c) k = false
  \/ isWebPage URL_parse k = false.

(** Whether a string starts with a decimal digit. *)
Definition starts_with_digit (s : string) : bool :=
  match s with
  | EmptyString => false
  | String c _ => bool_decide (is_Some (digit_value 10 c))
  end.

(** Whether a string holds a full stop. *)
Fixpoint has_dot (s : string) : bool :=
  match s with
  | EmptyString => false
  | String c s' => Ascii.eqb c "." || has_dot s'
  end.

(** The guard of line 360 on [process.argv.slice(2)]. *)
Definition usage_error (args : list string) : bool :=
  match args with
  | [] => true
  | startUrl :: _ => negb (truthy startUrl) || startsWith startUrl "--"
  end.

(** [l `suffix_of` x1 :: ... :: xn :: l] *)
Ltac solve_suffix :=
  first [ reflexivity | apply suffix_cons_r; solve_suffix ].

(* ================================================================== *)
(** * Properties *)
(* ================================================================== *)

(** ** The crawl controller, step by step *)

Section CrawlFacts.

Variable URL_parse : string -> option URL.
Variable web : World.

Lemma open_page_effects m n m1 next :
  open_page web m n = (m1, next) ->
  effects m `suffix_of` effects m1
  /\ reserved (effects m1) = n :: reserved (effects m)
  /\ exists nav ana,
       navigated (effects m1) = nav ++ navigated (effects m)
       /\ analysed (effects m1) = ana ++ analysed (effects m)
       /\ ana `sublist_of` nav /\ nav `sublist_of` [n].
Proof.
  unfold open_page, catch_crawl. intros H.
  repeat case_match; simplify_eq; cbn;
    (split; [ solve_suffix | split; [ reflexivity | ] ]);
    first [ exists [], []; by repeat split; try apply sublist_nil_l
          | exists [n], []; by repeat split; try apply sublist_nil_l
          | exists [n], [n]; by repeat split ].
Qed.

Lemma open_page_shape m n m1 next :
  open_page web m n = (m1, next) -> visit_shape m n m1.
Proof.
  unfold open_page, catch_crawl. intros H.
  repeat case_match; simplify_eq;
    first [ by apply shape_failed; cbn; eauto
          | by eapply shape_pushed; cbn; eauto ].
Qed.

(** A failed visit never reaches the loop. *)
Lemma open_page_next m n m1 links :
  open_page web m n = (m1, Some links) ->
  exists r, pr_url r = n /\ this m1 = push_result r (add_visited n (this m)).
Proof.
  unfold open_page, catch_crawl. intros H.
  repeat case_match; simplify_eq; eexists; (split; [ | reflexivity ]); reflexivity.
Qed.

(** Induction over a run of the loop, and over a run of [crawl]: a
    relation between machines that is reflexive, transitive and holds
    across every page visit holds across the whole run. *)
Lemma for_links_steps (P : Machine -> Machine -> Prop) visit :
  (forall m, P m m) ->
  (forall m1 m2 m3, P m1 m2 -> P m2 m3 -> P m1 m3) ->
  (forall m link m',
     budget_exhausted (this m) = false -> visit m link = Some m' -> P m m') ->
  forall links m m', for_links visit m links = Some m' -> P m m'.
Proof.
  intros Hrefl Htrans Hvisit. induction links as [|l ls IH]; intros m m' H; simpl in H.
  - by simplify_eq.
  - destruct (budget_exhausted (this m)) eqn:E; [ by simplify_eq | ].
    destruct (visit m l) as [m2|] eqn:V; [ | done ].
    eapply Htrans; [ eapply Hvisit | eapply IH ]; eauto.
Qed.

Lemma crawl_steps (P : Machine -> Machine -> Prop) :
  (forall m, P m m) ->
  (forall m1 m2 m3, P m1 m2 -> P m2 m3 -> P m1 m3) ->
  (forall m url m1 next,
     not_ready (this m) = false ->
     rejected URL_parse (this m) (normalizeUrl URL_parse url) = false ->
     open_page web m (normalizeUrl URL_parse url) = (m1, next) ->
     P m m1) ->
  forall fuel m url m', crawl URL_parse web fuel m url = Some m' -> P m m'.
Proof.
  intros Hrefl Htrans Hopen. induction fuel as [|fuel IH]; intros m url m' H.
  - discriminate.
  - simpl in H.
    destruct (not_ready (this m)) eqn:G1; [ by simplify_eq | ].
    destruct (rejected URL_parse (this m) (normalizeUrl URL_parse url)) eqn:G2;
      [ by simplify_eq | ].
    destruct (open_page web m (normalizeUrl URL_parse url)) as [m1 next] eqn:O.
    specialize (Hopen _ _ _ _ G1 G2 O).
    destruct next as [links|]; [ | by simplify_eq ].
    eapply Htrans; [ exact Hopen | ].
    eapply (for_links_steps P (crawl URL_parse web fuel)); eauto.
Qed.

(** What passing the second guard means. *)
Lemma rejected_false c n :
  rejected URL_parse c n = false ->
  (n ∉ visitedUrls c)
  /\ isInternalUrl URL_parse (baseUrl c) n = true
  /\ isWebPage URL_parse n = true.
Proof.
  unfold rejected. intros H.
  apply orb_false_elim in H as [H H3]. apply orb_false_elim in H as [H1 H2].
  apply bool_decide_eq_false in H1. apply negb_false_iff in H2, H3. done.
Qed.

Lemma not_ready_false c :
  not_ready c = false ->
  browser c = true /\ context c = true /\ Z.of_nat (size (visitedUrls c)) < maxPages c.
Proof.
  unfold not_ready, budget_exhausted. intros H.
  apply orb_false_elim in H as [H H3]. apply orb_false_elim in H as [H1 H2].
  apply negb_false_iff in H1, H2. apply Z.leb_gt in H3. done.
Qed.

Lemma size_add_fresh (n : string) (V : gset string) :
  n ∉ V -> size ({[ n ]} ∪ V) = S (size V).
Proof.
  intros Hn. rewrite size_union by set_solver. by rewrite size_singleton.
Qed.

(** *** The object only grows *)

Lemma grows_refl c : grows c c.
Proof. by split. Qed.

Lemma grows_trans c1 c2 c3 : grows c1 c2 -> grows c2 c3 -> grows c1 c3.
Proof.
  intros [V1 R1 B1 M1] [V2 R2 B2 M2]. split.
  - set_solver.
  - by etrans.
  - congruence.
  - congruence.
Qed.

Lemma grows_add n c : grows c (add_visited n c).
Proof. split; cbn; [ set_solver | done | done | done ]. Qed.

Lemma grows_push r c : grows c (push_result r c).
Proof. split; cbn; [ done | by apply prefix_app_r | done | done ]. Qed.

Lemma continues_refl m : continues m m.
Proof. repeat split; done. Qed.

Lemma continues_trans m1 m2 m3 :
  continues m1 m2 -> continues m2 m3 -> continues m1 m3.
Proof.
  intros (G1 & E1 & S1 & B1 & C1) (G2 & E2 & S2 & B2 & C2).
  split; [ by eapply grows_trans | ].
  split; [ by etrans | ].
  split; [ by etrans | ].
  split; congruence.
Qed.

Lemma open_page_continues m n m1 next :
  open_page web m n = (m1, next) -> continues m m1.
Proof.
  intros H. destruct (open_page_effects _ _ _ _ H) as (E & _).
  destruct (open_page_shape _ _ _ _ H) as [T Hh _ _ | r _ T Hh _ _];
    unfold continues, states; rewrite T, Hh; repeat split; cbn;
    try done; try set_solver; try (by apply prefix_app_r);
    solve_suffix.
Qed.

Lemma crawl_continues fuel m url m' :
  crawl URL_parse web fuel m url = Some m' -> continues m m'.
Proof.
  apply (crawl_steps continues).
  - apply continues_refl.
  - apply continues_trans.
  - intros. by eapply open_page_continues.
Qed.

(** *** Termination: [enough_fuel] is enough *)

Lemma budget_left_mono c c' : grows c c' -> (budget_left c' <= budget_left c)%nat.
Proof.
  intros [V _ _ M]. unfold budget_left. rewrite M.
  apply subseteq_size in V. lia.
Qed.

Lemma for_links_total fuel links :
  (forall m url, (budget_left (this m) < fuel)%nat ->
                 is_Some (crawl URL_parse web fuel m url)) ->
  forall m, (budget_left (this m) < fuel)%nat ->
            is_Some (for_links (crawl URL_parse web fuel) m links).
Proof.
  intros IH. induction links as [|l ls IHl]; intros m Hm; simpl.
  - by eexists.
  - destruct (budget_exhausted (this m)); [ by eexists | ].
    destruct (IH m l Hm) as [m2 Hc]. rewrite Hc. apply IHl.
    apply crawl_continues in Hc as (G & _). apply budget_left_mono in G. lia.
Qed.

Lemma crawl_total fuel m url :
  (budget_left (this m) < fuel)%nat ->
  is_Some (crawl URL_parse web fuel m url).
Proof.
  revert m url. induction fuel as [|fuel IH]; intros m url Hf; [ lia | ].
  simpl.
  destruct (not_ready (this m)) eqn:G1; [ by eexists | ].
  destruct (rejected URL_parse (this m) (normalizeUrl URL_parse url)) eqn:G2;
    [ by eexists | ].
  destruct (open_page web m (normalizeUrl URL_parse url)) as [m1 next] eqn:O.
  destruct next as [links|]; [ | by eexists ].
  apply for_links_total; [ exact IH | ].
  apply not_ready_false in G1 as (_ & _ & Hlt).
  apply rejected_false in G2 as (Hn & _).
  destruct (open_page_next _ _ _ _ O) as (r & _ & T).
  unfold budget_left in *. rewrite T. cbn.
  rewrite size_add_fresh by done. lia.
Qed.

(** *** The session invariant *)

Lemma crawler_ok_add c n :
  crawler_ok URL_parse c ->
  not_ready c = false ->
  rejected URL_parse c n = false ->
  crawler_ok URL_parse (add_visited n c).
Proof.
  intros [D V S B] G1 G2.
  apply not_ready_false in G1 as (_ & _ & Hlt).
  apply rejected_false in G2 as (Hn & Hi & Hw).
  split; cbn.
  - exact D.
  - intros r Hr. apply elem_of_union_r. by apply V.
  - intros k [Hk | Hk]%elem_of_union.
    + apply elem_of_singleton in Hk. by subst.
    + by apply S.
  - intros _. unfold within_budget. cbn. rewrite size_add_fresh by done. lia.
Qed.

Lemma crawler_ok_push c r :
  crawler_ok URL_parse c ->
  pr_url r ∈ visitedUrls c ->
  pr_url r ∉ map pr_url (results c) ->
  crawler_ok URL_parse (push_result r c).
Proof.
  intros [D V S B] Hin Hfresh. split; cbn.
  - rewrite map_app. apply NoDup_app. repeat split.
    + exact D.
    + intros x Hx ->%list_elem_of_singleton. done.
    + apply NoDup_singleton.
  - intros r' [Hr | ->%list_elem_of_singleton]%elem_of_app; [ by apply V | done ].
  - exact S.
  - exact B.
Qed.

Lemma fresh_in_results c n :
  crawler_ok URL_parse c -> n ∉ visitedUrls c -> n ∉ map pr_url (results c).
Proof.
  intros [_ V _ _] Hn (r & -> & Hr)%list_elem_of_fmap. by apply Hn, V.
Qed.

Lemma monotone_cons c' m :
  monotone (states m) -> grows (this m) c' -> monotone (c' :: states m).
Proof.
  intros Hm G. split; [ | exact Hm ].
  unfold states in *. cbn in Hm. destruct Hm as [Hold _].
  apply Forall_cons. split; [ exact G | ].
  eapply Forall_impl; [ exact Hold | ]. intros o Ho. cbn in Ho.
  exact (grows_trans _ _ _ Ho G).
Qed.

Lemma open_page_ok m n m1 next :
  session_ok URL_parse m ->
  not_ready (this m) = false ->
  rejected URL_parse (this m) n = false ->
  open_page web m n = (m1, next) ->
  session_ok URL_parse m1.
Proof.
  intros (Hc & Ht & Hm) G1 G2 O.
  pose proof (crawler_ok_add _ _ (Forall_inv Hc) G1 G2) as Hadd.
  pose proof (rejected_false _ _ G2) as (Hn & _).
  destruct (open_page_effects _ _ _ _ O) as (_ & Hres & nav & ana & Hnav & Hana & Sa & Sn).
  destruct Ht as [RD RV TN TA TR].
  assert (NoDup (reserved (effects m1))) as RD1.
  { rewrite Hres. apply NoDup_cons. split; [ by rewrite RV | done ]. }
  assert (navigated (effects m1) `sublist_of` reserved (effects m1)) as TN1.
  { rewrite Hnav, Hres. by apply (sublist_app nav [n]). }
  assert (analysed (effects m1) `sublist_of` navigated (effects m1)) as TA1.
  { rewrite Hana, Hnav. by apply sublist_app. }
  destruct (open_page_shape _ _ _ _ O) as [T Hh R _ | r Hr T Hh Hnav' Hana'].
  - split; [ | split ].
    + unfold states. rewrite T, Hh. by apply Forall_cons.
    + split; try done.
      * intros k. rewrite Hres, T. cbn.
        rewrite elem_of_cons, RV, elem_of_union, elem_of_singleton. done.
      * rewrite R, Hana. by apply sublist_inserts_l.
    + unfold states. rewrite T, Hh. apply (monotone_cons _ m Hm), grows_add.
  - assert (crawler_ok URL_parse (this m1)) as Hpush.
    { rewrite T. apply crawler_ok_push; [ done | | ].
      - rewrite Hr. cbn. apply elem_of_union_l. by apply elem_of_singleton.
      - rewrite Hr. cbn. by apply fresh_in_results; [ apply (Forall_inv Hc) | ]. }
    split; [ | split ].
    + unfold states. rewrite Hh. apply Forall_cons. split; [ done | ].
      by apply Forall_cons.
    + split; try done.
      * intros k. rewrite Hres, T. cbn.
        rewrite elem_of_cons, RV, elem_of_union, elem_of_singleton. done.
      * rewrite T, Hana'. cbn [results push_result add_visited].
        rewrite map_app, reverse_app. cbn [map reverse]. rewrite Hr.
        by apply sublist_skip.
    + unfold states. rewrite Hh, T.
      apply (monotone_cons _ (mkMachine (add_visited n (this m)) (effects m)
                                        (this m :: history m))).
      * apply (monotone_cons _ m Hm), grows_add.
      * apply grows_push.
Qed.

Lemma crawl_ok fuel m url m' :
  crawl URL_parse web fuel m url = Some m' ->
  session_ok URL_parse m -> session_ok URL_parse m'.
Proof.
  apply (crawl_steps (fun m m' => session_ok URL_parse m -> session_ok URL_parse m')).
  - done.
  - eauto.
  - intros. by eapply open_page_ok.
Qed.

Lemma construct_ok startUrl budget c :
  construct URL_parse startUrl budget = Some c ->
  session_ok URL_parse (mkMachine c [] []).
Proof.
  unfold construct. destruct (URL_parse startUrl); [ | done ].
  intros [= <-]. split; [ | split ].
  - apply Forall_cons. split; [ | done ]. split; cbn.
    + apply NoDup_nil_2.
    + intros r []%elem_of_nil.
    + intros n []%not_elem_of_empty.
    + intros H. unfold within_budget. cbn. rewrite size_empty. lia.
  - split; cbn.
    + apply NoDup_nil_2.
    + intros k. split; [ intros []%elem_of_nil | intros []%not_elem_of_empty ].
    + reflexivity.
    + reflexivity.
    + reflexivity.
  - by split.
Qed.

(** A change of the handles alone keeps the invariant. *)
Lemma handles_ok m b x :
  session_ok URL_parse m ->
  session_ok URL_parse
    (mutate (fun c => mkCrawler b x (visitedUrls c) (baseUrl c)
                                (maxPages c) (results c)) m).
Proof.
  intros (Hc & Ht & Hm). split; [ | split ].
  - apply Forall_cons. split; [ | done ].
    destruct (Forall_inv Hc) as [D V S B]. by split.
  - destruct Ht. by split.
  - apply (monotone_cons _ m Hm). by split.
Qed.

Lemma initialize_ok launch newContext m :
  session_ok URL_parse m ->
  session_ok URL_parse (fst (initialize launch newContext m)).
Proof.
  intros H. unfold initialize.
  destruct launch; cbn; [ | done ].
  destruct newContext; cbn.
  - apply (handles_ok _ (browser _) true), (handles_ok _ true (context _)), H.
  - apply (handles_ok _ true (context _)), H.
Qed.

Lemma emit_ok_silent m e :
  reserved [e] = [] -> navigated [e] = [] -> analysed [e] = [] ->
  session_ok URL_parse m -> session_ok URL_parse (emit e m).
Proof.
  intros R N A (Hc & Ht & Hm). split; [ done | split; [ | done ] ].
  destruct Ht as [RD RV TN TA TR].
  assert (reserved (effects (emit e m)) = reserved (effects m)) as HR.
  { change (effects (emit e m)) with ([e] ++ effects m).
    unfold reserved in *. by rewrite omap_app, R. }
  assert (navigated (effects (emit e m)) = navigated (effects m)) as HN.
  { change (effects (emit e m)) with ([e] ++ effects m).
    unfold navigated in *. by rewrite omap_app, N. }
  assert (analysed (effects (emit e m)) = analysed (effects m)) as HA.
  { change (effects (emit e m)) with ([e] ++ effects m).
    unfold analysed in *. by rewrite omap_app, A. }
  split; rewrite ?HR, ?HN, ?HA; done.
Qed.

Lemma close_ok ctx_ok br_ok m :
  session_ok URL_parse m ->
  session_ok URL_parse (fst (close ctx_ok br_ok m)).
Proof.
  intros H. unfold close.
  destruct (context (this m)), ctx_ok; cbn;
    repeat (destruct (browser _); cbn);
    repeat (apply emit_ok_silent; [ done .. | ]); done.
Qed.

(** Every reachable machine satisfies the session invariant. *)
Lemma reachable_ok m : reachable URL_parse web m -> session_ok URL_parse m.
Proof.
  induction 1 as [startUrl budget c Hc | m launch newContext _ IH
                 | m fuel url m' _ IH Hc | m ctx_ok br_ok _ IH].
  - by eapply construct_ok.
  - by apply initialize_ok.
  - by eapply crawl_ok.
  - by apply close_ok.
Qed.

End CrawlFacts.

(** ** The URL normaliser and the classifiers *)

Section StringFacts.

Lemma endsWith_unfold s suf :
  endsWith s suf =
  if String.eqb s suf then true
  else match s with
       | EmptyString => false
       | String _ s' => endsWith s' suf
       end.
Proof. by destruct s. Qed.

(** [endsWith] is the suffix test. *)
Lemma endsWith_spec s suf :
  endsWith s suf = true <-> exists p, s = p +:+ suf.
Proof.
  split.
  - induction s as [|a s IH]; rewrite endsWith_unfold; intros H.
    + destruct (String.eqb_spec "" suf) as [E|E]; [ by exists "" | done ].
    + destruct (String.eqb_spec (String a s) suf) as [E|E]; [ by exists "" | ].
      destruct (IH H) as [p ->]. by exists (String a p).
  - intros [p ->]. induction p as [|a p IH].
    + change ("" +:+ suf) with suf.
      rewrite endsWith_unfold. by rewrite String.eqb_refl.
    + change (String a p +:+ suf) with (String a (p +:+ suf)).
      rewrite endsWith_unfold. cbv beta iota. rewrite IH. by case_match.
Qed.

Lemma toLowerCase_app s t :
  toLowerCase (s +:+ t) = toLowerCase s +:+ toLowerCase t.
Proof.
  induction s as [|a s IH]; [ done | ].
  change (toLowerCase (String a s +:+ t))
    with (String (lower_ascii a) (toLowerCase (s +:+ t))).
  by rewrite IH.
Qed.

Lemma endsWith_lower s suf :
  endsWith s suf = true ->
  endsWith (toLowerCase s) (toLowerCase suf) = true.
Proof.
  rewrite !endsWith_spec. intros [p ->]. exists (toLowerCase p).
  apply toLowerCase_app.
Qed.

Lemma fileExtensions_lower :
  Forall (fun ext => toLowerCase ext = ext) fileExtensions.
Proof. repeat constructor. Qed.

End StringFacts.

Section ClassifierFacts.

Variable URL_parse : string -> option URL.

Lemma isWebPage_denied n u ext :
  URL_parse n = Some u ->
  ext ∈ fileExtensions ->
  endsWith (url_pathname u) ext = true ->
  isWebPage URL_parse n = false.
Proof.
  intros Hp Hext He. unfold isWebPage. rewrite Hp.
  apply negb_false_iff, existsb_exists. exists ext. split.
  - by apply list_elem_of_In.
  - apply endsWith_lower in He.
    pose proof fileExtensions_lower as L.
    rewrite Forall_forall in L. by rewrite (L ext Hext) in He.
Qed.

Lemma isInternalUrl_other_origin base n u :
  URL_parse n = Some u ->
  url_origin u <> base ->
  isInternalUrl URL_parse base n = false.
Proof.
  intros Hp Ho. unfold isInternalUrl. rewrite Hp. by apply String.eqb_neq.
Qed.

End ClassifierFacts.

(** C9. [normalizeUrl] returns a valid URL without its fragment, so two
    valid URLs that differ only in their fragment get the same canonical
    string; an input that is not a valid URL is returned unchanged. *)
Theorem C9_normalize_strips_fragment (URL_parse : string -> option URL) :
  (forall s u, URL_parse s = Some u ->
     normalizeUrl URL_parse s = url_sans_fragment u)
  /\ (forall s1 s2 u1 u2,
        URL_parse s1 = Some u1 -> URL_parse s2 = Some u2 ->
        same_but_fragment u1 u2 ->
        normalizeUrl URL_parse s1 = normalizeUrl URL_parse s2)
  /\ (forall s, URL_parse s = None -> normalizeUrl URL_parse s = s).
Proof.
  unfold normalizeUrl. repeat split.
  - intros s u ->. reflexivity.
  - intros s1 s2 u1 u2 -> -> (_ & _ & _ & H). exact H.
  - intros s ->. reflexivity.
Qed.

(** The specification's own example, on the reference parser. *)
Lemma C9_witness :
  normalizeUrl SimpleURL.parse "https://ex.com/a#x" = "https://ex.com/a"
  /\ normalizeUrl SimpleURL.parse "https://ex.com/a#x"
     = normalizeUrl SimpleURL.parse "https://ex.com/a#y"
  /\ normalizeUrl SimpleURL.parse "ex.com/a#x" = "ex.com/a#x".
Proof.
  destruct (C9_normalize_strips_fragment SimpleURL.parse) as (H1 & H2 & H3).
  split; [ | split ].
  - exact (H1 "https://ex.com/a#x" _ eq_refl).
  - apply (H2 "https://ex.com/a#x" "https://ex.com/a#y" _ _ eq_refl eq_refl).
    repeat split.
  - exact (H3 "ex.com/a#x" eq_refl).
Defined.

Example normalize_bare_hash :
  normalizeUrl SimpleURL.parse "https://ex.com/a?q=1#" = "https://ex.com/a?q=1".
Proof. reflexivity. Qed.

Example isWebPage_upper_case_pdf :
  isWebPage SimpleURL.parse "https://ex.com/files/Report.PDF?x=1" = false.
Proof. reflexivity. Qed.

Example isWebPage_not_at_end :
  isWebPage SimpleURL.parse "https://ex.com/doc.pdf/view" = true.
Proof. reflexivity. Qed.

Example isInternalUrl_port :
  isInternalUrl SimpleURL.parse "https://ex.com" "https://ex.com:8443/a" = false.
Proof. reflexivity. Qed.

(** ** The session invariants, claim by claim *)

Section SessionFacts.

Variable URL_parse : string -> option URL.
Variable web : World.

(** In a monotone history every state grew into every newer one
    (index [0] is the newest). *)
Lemma monotone_lookup cs i j c c' :
  monotone cs -> (i <= j)%nat ->
  cs !! i = Some c -> cs !! j = Some c' ->
  grows c' c.
Proof.
  revert i j. induction cs as [|x cs IH]; intros i j Hm Hij Hi Hj; [ done | ].
  destruct Hm as [Hx Hm]. destruct i as [|i], j as [|j]; cbn in Hi, Hj.
  - simplify_eq. apply grows_refl.
  - simplify_eq. rewrite Forall_forall in Hx. apply Hx.
    by eapply list_elem_of_lookup_2.
  - lia.
  - eapply (IH i j); eauto. lia.
Qed.

Lemma states_grow m c :
  monotone (states m) -> c ∈ states m -> grows c (this m).
Proof.
  intros Hm [j Hj]%list_elem_of_lookup_1.
  eapply (monotone_lookup _ 0 j); eauto. lia.
Qed.

Lemma states_within_budget m :
  session_ok URL_parse m -> 0 <= maxPages (this m) ->
  Forall within_budget (states m).
Proof.
  intros (Hc & _ & Hm) Hb. apply Forall_forall. intros c Hin.
  rewrite Forall_forall in Hc. apply (ok_budget _ _ (Hc c Hin)).
  destruct (states_grow _ _ Hm Hin) as [_ _ _ <-]. exact Hb.
Qed.

Lemma crawl_budget_exhausted fuel m url :
  budget_exhausted (this m) = true ->
  crawl URL_parse web (S fuel) m url = Some m.
Proof.
  intros H. simpl. unfold not_ready. rewrite H.
  by rewrite !orb_true_r.
Qed.

Lemma results_at_most_visited c :
  crawler_ok URL_parse c -> (length (results c) <= size (visitedUrls c))%nat.
Proof.
  intros [D V _ _].
  rewrite <- (length_map pr_url), <- (size_list_to_set (C := gset string)) by done.
  apply subseteq_size. intros n Hn. apply elem_of_list_to_set in Hn.
  apply list_elem_of_fmap in Hn as (r & -> & Hr). by apply V.
Qed.

(** Calling [crawl] again on a URL with the same canonical form changes
    nothing. *)
Lemma crawl_again fuel1 fuel2 m u1 u2 m1 m2 :
  normalizeUrl URL_parse u1 = normalizeUrl URL_parse u2 ->
  crawl URL_parse web fuel1 m u1 = Some m1 ->
  crawl URL_parse web fuel2 m1 u2 = Some m2 ->
  m2 = m1.
Proof.
  intros Hn H1 H2.
  destruct fuel2 as [|fuel2]; [ done | ]. simpl in H2.
  destruct (not_ready (this m1)) eqn:R1; [ by simplify_eq | ].
  assert (rejected URL_parse (this m1) (normalizeUrl URL_parse u2) = true) as Hrej;
    [ | rewrite Hrej in H2; by simplify_eq ].
  rewrite <- Hn. clear H2 Hn.
  destruct fuel1 as [|fuel1]; [ done | ]. simpl in H1.
  destruct (not_ready (this m)) eqn:G1; [ simplify_eq; congruence | ].
  destruct (rejected URL_parse (this m) (normalizeUrl URL_parse u1)) eqn:G2;
    [ by simplify_eq | ].
  destruct (open_page web m (normalizeUrl URL_parse u1)) as [m' next] eqn:O.
  assert (normalizeUrl URL_parse u1 ∈ visitedUrls (this m')) as Hin.
  { destruct (open_page_shape _ _ _ _ _ O) as [T _ _ _ | r _ T _ _ _];
      rewrite T; cbn; apply elem_of_union_l; by apply elem_of_singleton. }
  assert (continues m' m1) as (G & _).
  { destruct next as [links|]; [ | simplify_eq; apply continues_refl ].
    eapply (for_links_steps continues); eauto using continues_refl, continues_trans.
    intros. by eapply crawl_continues. }
  unfold rejected. apply orb_true_iff. left. apply orb_true_iff. left.
  apply bool_decide_eq_true. by apply (grows_visited _ _ G).
Qed.

End SessionFacts.

(** C1. With a non-negative page budget the visited set never holds more
    than [maxPages] identities, in any state the crawler object has been
    in during or after traversal; [crawl] returns before reserving once
    the size has reached [maxPages], and it always returns. *)
Theorem C1_visited_within_budget
    (URL_parse : string -> option URL) (web : World) (m : Machine) :
  reachable URL_parse web m ->
  0 <= maxPages (this m) ->
  Forall (fun c => Z.of_nat (size (visitedUrls c)) <= maxPages c) (states m)
  /\ (forall fuel url,
        Z.of_nat (size (visitedUrls (this m))) >= maxPages (this m) ->
        crawl URL_parse web (S fuel) m url = Some m)
  /\ (forall url, exists m',
        crawl URL_parse web (enough_fuel m) m url = Some m'
        /\ Forall (fun c => Z.of_nat (size (visitedUrls c)) <= maxPages c)
                  (states m')).
Proof.
  intros Hr Hb. split; [ | split ].
  - apply (states_within_budget URL_parse);
      [ by apply (reachable_ok URL_parse web) | exact Hb ].
  - intros fuel url Hfull. apply crawl_budget_exhausted.
    unfold budget_exhausted. apply Z.leb_le. lia.
  - intros url.
    destruct (crawl_total URL_parse web (enough_fuel m) m url) as [m' Hc];
      [ unfold enough_fuel; lia | ].
    exists m'. split; [ exact Hc | ].
    apply (states_within_budget URL_parse).
    + apply (reachable_ok URL_parse web). by eapply reach_crawl.
    + apply crawl_continues in Hc as ([_ _ _ ->] & _). exact Hb.
Qed.

Lemma demo_start_reachable w budget :
  reachable SimpleURL.parse w (Demo.start budget).
Proof.
  apply reach_initialize.
  by apply (reach_new _ _ "https://example.com" (Some budget)).
Qed.

Lemma demo_run_reachable w budget :
  reachable SimpleURL.parse w (Demo.run w budget).
Proof.
  unfold Demo.run.
  destruct (crawl SimpleURL.parse w (enough_fuel (Demo.start budget))
                  (Demo.start budget) "https://example.com") as [m|] eqn:E.
  - eapply reach_crawl; [ apply demo_start_reachable | exact E ].
  - apply demo_start_reachable.
Qed.

(** The demo crawl with budget 3 stays within it. *)
Lemma C1_witness :
  let m := Demo.run Demo.site 3 in
  Forall (fun c => Z.of_nat (size (visitedUrls c)) <= maxPages c) (states m)
  /\ Z.of_nat (size (visitedUrls (this m))) = 3.
Proof.
  split.
  - apply (C1_visited_within_budget SimpleURL.parse Demo.site
             (Demo.run Demo.site 3) (demo_run_reachable _ _)).
    by vm_compute.
  - by vm_compute.
Defined.

(** C2. Visitation is idempotent: the trace never reserves an identity
    twice and the reserved identities are exactly the members of the
    visited set; no state of the object ever loses a member; no identity
    is navigated to or analysed twice, nor has two results; and a second
    [crawl] on a URL with the same canonical form changes nothing. *)
Theorem C2_idempotent_visitation
    (URL_parse : string -> option URL) (web : World) (m : Machine) :
  reachable URL_parse web m ->
  NoDup (reserved (effects m))
  /\ (forall n, n ∈ reserved (effects m) <-> n ∈ visitedUrls (this m))
  /\ (forall i j older newer,
        (i <= j)%nat ->
        states m !! i = Some newer -> states m !! j = Some older ->
        visitedUrls older ⊆ visitedUrls newer)
  /\ NoDup (navigated (effects m))
  /\ NoDup (analysed (effects m))
  /\ NoDup (map pr_url (results (this m)))
  /\ (forall fuel url m',
        crawl URL_parse web fuel m url = Some m' ->
        visitedUrls (this m) ⊆ visitedUrls (this m'))
  /\ (forall fuel1 fuel2 u1 u2 m1 m2,
        normalizeUrl URL_parse u1 = normalizeUrl URL_parse u2 ->
        crawl URL_parse web fuel1 m u1 = Some m1 ->
        crawl URL_parse web fuel2 m1 u2 = Some m2 ->
        m2 = m1).
Proof.
  intros Hr. destruct (reachable_ok URL_parse web m Hr) as (Hc & Ht & Hm).
  destruct Ht as [RD RV TN TA TR].
  assert (NoDup (navigated (effects m))) as ND by (by eapply sublist_NoDup).
  repeat split.
  - exact RD.
  - by apply RV.
  - by apply RV.
  - intros i j older newer Hij Hi Hj.
    by destruct (monotone_lookup _ i j _ _ Hm Hij Hi Hj).
  - exact ND.
  - by eapply sublist_NoDup.
  - apply (ok_results_distinct URL_parse), (Forall_inv Hc).
  - intros fuel url m' Hcr.
    by apply crawl_continues in Hcr as ([V _ _ _] & _).
  - intros. by eapply crawl_again.
Qed.

(** On the demo site page [a] is linked three times (twice from the
    start page under two fragments, once more by itself through the
    start page) and is reserved and analysed once. *)
Lemma C2_witness :
  let m := Demo.run Demo.site 10 in
  NoDup (reserved (effects m)) /\ NoDup (analysed (effects m))
  /\ NoDup (map pr_url (results (this m))).
Proof.
  destruct (C2_idempotent_visitation SimpleURL.parse Demo.site
              (Demo.run Demo.site 10) (demo_run_reachable _ _))
    as (H1 & _ & _ & _ & H2 & H3 & _).
  exact (conj H1 (conj H2 H3)).
Defined.

(** C10 (as amended).  In every state the crawler object has been in,
    the URLs of the accumulated results are pairwise distinct and each
    is a member of the visited set, so the number of results never
    exceeds the size of the visited set; it never exceeds the page
    budget either when that budget is non-negative. *)
Theorem C10_results_distinct_and_visited
    (URL_parse : string -> option URL) (web : World) (m : Machine) :
  reachable URL_parse web m ->
  Forall (fun c =>
            NoDup (map pr_url (results c))
            /\ (forall r, r ∈ results c -> pr_url r ∈ visitedUrls c)
            /\ (length (results c) <= size (visitedUrls c))%nat
            /\ (0 <= maxPages c -> Z.of_nat (length (results c)) <= maxPages c))
         (states m).
Proof.
  intros Hr. destruct (reachable_ok URL_parse web m Hr) as (Hc & _ & _).
  eapply Forall_impl; [ exact Hc | ]. intros c Hok. cbn.
  pose proof (results_at_most_visited _ _ Hok) as Hle.
  destruct Hok as [D V _ B]. repeat split; try done.
  intros Hb. specialize (B Hb). unfold within_budget in B. lia.
Qed.

Lemma C10_witness :
  let m := Demo.run Demo.site 3 in
  Z.of_nat (length (results (this m))) <= maxPages (this m).
Proof.
  pose proof (C10_results_distinct_and_visited SimpleURL.parse Demo.site
                (Demo.run Demo.site 3) (demo_run_reachable _ _)) as H.
  apply Forall_inv in H. destruct H as (_ & _ & _ & H).
  apply H. by vm_compute.
Defined.

(** With [--max-pages -1] the budget is [-1]; the freshly constructed
    session has no result, and [0] exceeds the budget. *)
Lemma C10_counterexample :
  maxPages_of_args ["https://example.com"; "--max-pages"; "-1"] = -1
  /\ construct SimpleURL.parse "https://example.com" (Some (-1))
     = Some (this (Demo.fresh (-1)))
  /\ reachable SimpleURL.parse Demo.site (Demo.fresh (-1))
  /\ ~ (Z.of_nat (length (results (this (Demo.fresh (-1)))))
        <= maxPages (this (Demo.fresh (-1)))).
Proof.
  split; [ reflexivity | ]. split; [ reflexivity | ]. split.
  - by apply (reach_new _ _ "https://example.com" (Some (-1))).
  - cbn. lia.
Qed.

(** C8. Whatever the order of discovery, a URL whose origin differs from
    the session's base origin, or whose path ends in a deny-listed
    extension, is in no state of the visited set and is never navigated
    to or analysed, and has no result; [crawl] on a URL whose canonical
    form is out of scope or not a web page changes nothing; a string
    that does not parse classifies as out of scope and as a web page. *)
Theorem C8_out_of_scope_never_visited
    (URL_parse : string -> option URL) (web : World) (m : Machine) :
  reachable URL_parse web m ->
  (forall n u,
     URL_parse n = Some u ->
     url_origin u <> baseUrl (this m)
     \/ (exists ext, ext ∈ fileExtensions /\ endsWith (url_pathname u) ext = true) ->
     Forall (fun c => n ∉ visitedUrls c) (states m)
     /\ (n ∉ reserved (effects m))
     /\ (n ∉ navigated (effects m))
     /\ (n ∉ analysed (effects m))
     /\ (n ∉ map pr_url (results (this m))))
  /\ (forall fuel url m',
        crawl URL_parse web fuel m url = Some m' ->
        isInternalUrl URL_parse (baseUrl (this m)) (normalizeUrl URL_parse url) = false
        \/ isWebPage URL_parse (normalizeUrl URL_parse url) = false ->
        m' = m)
  /\ (forall s base,
        URL_parse s = None ->
        isInternalUrl URL_parse base s = false /\ isWebPage URL_parse s = true).
Proof.
  intros Hr. split; [ | split ]; cycle 1.
  - intros [|fuel] url m' Hc Hout; [ done | ]. simpl in Hc.
    destruct (not_ready (this m)); [ by simplify_eq | ].
    assert (rejected URL_parse (this m) (normalizeUrl URL_parse url) = true) as Hrej.
    { unfold rejected. destruct Hout as [-> | ->]; cbn; by rewrite ?orb_true_r. }
    rewrite Hrej in Hc. by simplify_eq.
  - intros s base Hp. unfold isInternalUrl, isWebPage. by rewrite Hp.
  - intros n u Hp Hout.
    destruct (reachable_ok URL_parse web m Hr) as (Hc & Ht & Hm).
    destruct Ht as [RD RV TN TA TR].
    assert (n ∉ visitedUrls (this m)) as Hn.
    { intros Hin.
      destruct (ok_visited_in_scope _ _ (Forall_inv Hc) n Hin) as [Hi Hw].
      destruct Hout as [Ho | (ext & Hext & He)].
      - by rewrite (isInternalUrl_other_origin _ _ _ _ Hp Ho) in Hi.
      - by rewrite (isWebPage_denied _ _ _ _ Hp Hext He) in Hw. }
    assert (n ∉ reserved (effects m)) as Hres by (by rewrite RV).
    assert (n ∉ navigated (effects m)) as Hnav.
    { intros Hin. apply Hres. by eapply elem_of_sublist. }
    assert (n ∉ analysed (effects m)) as Hana.
    { intros Hin. apply Hnav. by eapply elem_of_sublist. }
    repeat split; try done.
    + apply Forall_forall. intros c Hin Hnc. apply Hn.
      by apply (grows_visited _ _ (states_grow _ _ Hm Hin)).
    + intros Hin. apply Hana. eapply elem_of_sublist; [ | exact TR ].
      by apply elem_of_reverse.
Qed.

(** On the demo site the foreign link and the PDF are never reserved. *)
Lemma C8_witness :
  let m := Demo.run Demo.site 10 in
  ("https://other.org/x" ∉ visitedUrls (this m))
  /\ ("https://example.com/doc.pdf" ∉ visitedUrls (this m))
  /\ isInternalUrl SimpleURL.parse "https://example.com" "/about" = false.
Proof.
  destruct (C8_out_of_scope_never_visited SimpleURL.parse Demo.site
              (Demo.run Demo.site 10) (demo_run_reachable _ _)) as (H1 & _ & H2).
  split; [ | split ].
  - destruct (H1 "https://other.org/x" _ eq_refl) as [H _].
    + left. by vm_compute.
    + exact (Forall_inv H).
  - destruct (H1 "https://example.com/doc.pdf" _ eq_refl) as [H _].
    + right. exists ".pdf". split; [ | reflexivity ].
      apply list_elem_of_In. cbn. tauto.
    + exact (Forall_inv H).
  - exact (proj1 (H2 "/about" "https://example.com" eq_refl)).
Defined.

(** C3. When navigation or the axe analysis throws for a target that
    passed the guards, [crawl] returns normally: the target has no
    result, its identity is in the visited set, the failure is logged on
    the error console, and the loop over the sibling links goes on with
    the rest of them. *)
Theorem C3_failed_target_is_skipped
    (URL_parse : string -> option URL) (web : World)
    (fuel : nat) (m : Machine) (url : string) :
  let n := normalizeUrl URL_parse url in
  let line := LogCrawling n (size ({[ n ]} ∪ visitedUrls (this m)))
                          (maxPages (this m)) in
  let w := web (line :: effects m) n in
  not_ready (this m) = false ->
  rejected URL_parse (this m) n = false ->
  pb_newPage w = true ->
  pb_goto w = false \/ pb_axe w = None ->
  exists m',
    crawl URL_parse web (S fuel) m url = Some m'
    /\ results (this m') = results (this m)
    /\ visitedUrls (this m') = {[ n ]} ∪ visitedUrls (this m)
    /\ effects m' =
         ErrCrawling n
         :: (if pb_goto w then [CallAxe n] else [])
         ++ [CallGoto n; CallNewPage; line] ++ effects m
    /\ (forall rest,
          for_links (crawl URL_parse web (S fuel)) m (url :: rest)
          = for_links (crawl URL_parse web (S fuel)) m' rest).
Proof.
  intros n line w G1 G2 Hnew Hfail.
  assert (open_page web m n
          = (mkMachine (add_visited n (this m))
               (ErrCrawling n
                :: (if pb_goto w then [CallAxe n] else [])
                ++ [CallGoto n; CallNewPage; line] ++ effects m)
               (this m :: history m), None)) as O.
  { unfold open_page, catch_crawl. cbn. fold n. fold line. fold w.
    rewrite Hnew. cbn.
    destruct (pb_goto w) eqn:Hg; cbn; [ | reflexivity ].
    destruct Hfail as [? | Ha]; [ done | ]. by rewrite Ha. }
  eexists. split; [ | split; [ | split; [ | split ] ] ].
  - simpl. fold n. rewrite G1, G2, O. reflexivity.
  - reflexivity.
  - reflexivity.
  - reflexivity.
  - intros rest. cbn [for_links].
    assert (budget_exhausted (this m) = false) as ->.
    { unfold not_ready in G1. by apply orb_false_elim in G1 as [_ ?]. }
    cbn [crawl]. fold n. rewrite G1, G2, O. reflexivity.
Qed.

(** On the broken demo site page [a] fails to load: it gets no result,
    stays reserved, and its sibling [b] is still visited. *)
Lemma C3_witness :
  exists m',
    crawl SimpleURL.parse Demo.broken_site 1 (Demo.start 10)
          "https://example.com/a#top" = Some m'
    /\ results (this m') = []
    /\ "https://example.com/a" ∈ visitedUrls (this m').
Proof.
  destruct (C3_failed_target_is_skipped SimpleURL.parse Demo.broken_site 0
              (Demo.start 10) "https://example.com/a#top")
    as (m' & Hc & Hr & Hv & _).
  - by vm_compute.
  - by vm_compute.
  - by vm_compute.
  - left. by vm_compute.
  - exists m'. split; [ exact Hc | ]. split; [ exact Hr | ].
    rewrite Hv. apply elem_of_union_l. by apply elem_of_singleton.
Defined.

Example broken_site_run :
  let m := Demo.run Demo.broken_site 10 in
  map pr_url (results (this m)) = [ "https://example.com/"; "https://example.com/b" ]
  /\ reverse (reserved (effects m))
     = [ "https://example.com/"; "https://example.com/a"; "https://example.com/b" ]
  /\ ErrCrawling "https://example.com/a" ∈ effects m.
Proof.
  split; [ by vm_compute | ]. split; [ by vm_compute | ].
  apply list_elem_of_In. vm_compute. tauto.
Qed.

(** The end-to-end scenario of the specification: budget 3, a start page
    linking in-scope pages, a foreign page and a PDF. *)
Example budget_three_run :
  let m := Demo.run Demo.site 3 in
  map pr_url (results (this m))
  = [ "https://example.com/"; "https://example.com/a"; "https://example.com/c" ]
  /\ size (visitedUrls (this m)) = 3%nat.
Proof. split; by vm_compute. Qed.

(** ** The report *)

Section ReportFacts.

Lemma impact_is_inv key v : impact_is key v = true -> v_impact v = Some key.
Proof.
  unfold impact_is. destruct (v_impact v) as [s|]; [ | done ].
  by intros ->%String.eqb_eq.
Qed.

Lemma byImpact_entry vs key group :
  (key, group) ∈ byImpact vs ->
  key ∈ severities /\ group = List.filter (impact_is key) vs.
Proof.
  unfold byImpact, severities. rewrite !elem_of_cons, elem_of_nil.
  intros [H | [H | [H | [H | []]]]]; simplify_eq; split; try done;
    rewrite ?elem_of_cons; tauto.
Qed.

Lemma group_member vs key group v :
  (key, group) ∈ byImpact vs -> v ∈ group -> v ∈ vs /\ v_impact v = Some key.
Proof.
  intros [_ ->]%byImpact_entry Hv.
  apply list_elem_of_In, filter_In in Hv as [Hin Hk].
  split; [ by apply list_elem_of_In | by apply impact_is_inv ].
Qed.

Lemma group_total_cons v vs :
  group_total (v :: vs)
  = ((if named_severity v then 1 else 0) + group_total vs)%nat.
Proof.
  unfold group_total, byImpact, named_severity, severities.
  cbn [fold_right snd List.filter existsb].
  destruct (impact_is "critical" v) eqn:E1, (impact_is "serious" v) eqn:E2,
           (impact_is "moderate" v) eqn:E3, (impact_is "minor" v) eqn:E4;
    cbn [orb length]; try lia;
    repeat match goal with
           | H : impact_is _ v = true |- _ => apply impact_is_inv in H
           end; congruence.
Qed.

Lemma group_total_named vs :
  group_total vs = length (List.filter named_severity vs).
Proof.
  induction vs as [|v vs IH]; [ done | ].
  rewrite group_total_cons, IH. cbn [List.filter].
  by destruct (named_severity v).
Qed.

End ReportFacts.

(** C4 (as amended).  The severity groups are disjoint, and a violation
    of the page is in a group exactly when its impact is one of
    critical, serious, moderate, minor: the group is then the one of
    that name.  A violation with no impact or another impact is in no
    group.  The group counts add up to the number of violations that
    carry one of the four impacts, which is at most the page's total. *)
Theorem C4_severity_groups (vs : list Violation) :
  (forall k1 g1 k2 g2 v,
     (k1, g1) ∈ byImpact vs -> (k2, g2) ∈ byImpact vs ->
     v ∈ g1 -> v ∈ g2 -> k1 = k2)
  /\ (forall v k,
        v ∈ vs -> k ∈ severities -> v_impact v = Some k ->
        (k, List.filter (impact_is k) vs) ∈ byImpact vs
        /\ v ∈ List.filter (impact_is k) vs)
  /\ (forall v k g,
        named_severity v = false -> (k, g) ∈ byImpact vs -> v ∉ g)
  /\ group_total vs = length (List.filter named_severity vs)
  /\ (group_total vs <= length vs)%nat.
Proof.
  split; [ | split; [ | split; [ | split ] ] ].
  - intros k1 g1 k2 g2 v H1 H2 Hv1 Hv2.
    destruct (group_member _ _ _ _ H1 Hv1) as [_ E1].
    destruct (group_member _ _ _ _ H2 Hv2) as [_ E2]. congruence.
  - intros v k Hv Hk Hi. split.
    + unfold byImpact, severities in *. rewrite !elem_of_cons, elem_of_nil in Hk.
      rewrite !elem_of_cons.
      destruct Hk as [-> | [-> | [-> | [-> | []]]]]; tauto.
    + apply list_elem_of_In, filter_In. split; [ by apply list_elem_of_In | ].
      unfold impact_is. rewrite Hi. apply String.eqb_refl.
  - intros v k g Hn Hg Hv.
    destruct (group_member _ _ _ _ Hg Hv) as [_ E].
    apply byImpact_entry in Hg as [Hk _].
    unfold named_severity in Hn.
    assert (existsb (fun key => impact_is key v) severities = true) as Hex;
      [ | congruence ].
    apply existsb_exists. exists k. split; [ by apply list_elem_of_In | ].
    unfold impact_is. rewrite E. apply String.eqb_refl.
  - apply group_total_named.
  - rewrite group_total_named. apply filter_length_le.
Qed.

Lemma C4_witness :
  (("critical", [Demo.critical_one])
     ∈ byImpact [Demo.no_impact; Demo.critical_one])
  /\ group_total [Demo.no_impact; Demo.critical_one] = 1%nat.
Proof.
  destruct (C4_severity_groups [Demo.no_impact; Demo.critical_one])
    as (_ & H & _ & Hn & _).
  split.
  - refine (proj1 (H Demo.critical_one "critical" _ _ eq_refl)).
    + apply list_elem_of_In. cbn. tauto.
    + apply list_elem_of_In. cbn. tauto.
  - exact Hn.
Defined.

(** A violation whose impact is [null] is counted in the page's total
    and appears in none of the four groups. *)
Lemma C4_counterexample :
  length [Demo.no_impact] = 1%nat
  /\ group_total [Demo.no_impact] = 0%nat
  /\ byImpact [Demo.no_impact]
     = [ ("critical", []); ("serious", []); ("moderate", []); ("minor", []) ].
Proof. repeat split. Qed.

Example render_axe_no_impact :
  render_axe (mkAxe [Demo.no_impact])
  = cat [ "### Axe-core Violations (1)"; LF; LF ].
Proof. reflexivity. Qed.

(** C5 (as amended).  The report is its [Generated] line, which renders
    the wall clock at the time of the call, followed by a text that is a
    function of the stored results alone: two invocations on sessions
    with the same results agree whenever the clock renders the same, and
    always agree after that line. *)
Theorem C5_report_determined_by_results_and_clock
    (toFixed : nat -> float -> string) (toLocaleString : Z -> string)
    (Date_parse : string -> option Z) :
  (forall clock1 clock2 c1 c2,
     results c1 = results c2 ->
     toLocaleString clock1 = toLocaleString clock2 ->
     generateMarkdownReport toFixed toLocaleString Date_parse clock1 c1
     = generateMarkdownReport toFixed toLocaleString Date_parse clock2 c2)
  /\ (exists body : list PageResult -> string,
        forall clock c,
          generateMarkdownReport toFixed toLocaleString Date_parse clock c
          = "# Accessibility Report" +:+ LF +:+ LF +:+ "**Generated:** "
            +:+ toLocaleString clock +:+ LF +:+ body (results c)).
Proof.
  split.
  - intros clock1 clock2 c1 c2 Hr Hc. unfold generateMarkdownReport.
    by rewrite Hr, Hc.
  - exists (report_body toFixed toLocaleString Date_parse).
    intros clock c. unfold generateMarkdownReport, cat.
    cbn [fold_right].
    assert (forall s, s +:+ "" = s) as Hnil.
    { induction s as [|a s IH]; [ done | ].
      change (String a s +:+ "") with (String a (s +:+ "")). by rewrite IH. }
    by rewrite Hnil.
Qed.

Lemma C5_witness :
  generateMarkdownReport Demo.toFixed Demo.toLocaleString Demo.Date_parse
                         1000 (this (Demo.run Demo.site 3))
  = generateMarkdownReport Demo.toFixed Demo.toLocaleString Demo.Date_parse
                           1999 (this (Demo.run Demo.site 3)).
Proof.
  exact (proj1 (C5_report_determined_by_results_and_clock
                  Demo.toFixed Demo.toLocaleString Demo.Date_parse)
               1000 1999 _ _ eq_refl eq_refl).
Defined.

(** Two invocations on the same session at two readings of the clock
    differ. *)
Lemma C5_counterexample :
  generateMarkdownReport Demo.toFixed Demo.toLocaleString Demo.Date_parse
                         0 (this (Demo.fresh 10))
  <> generateMarkdownReport Demo.toFixed Demo.toLocaleString Demo.Date_parse
                            1000 (this (Demo.fresh 10)).
Proof. vm_compute. discriminate. Qed.

(** ** Cleanup and the entry point *)

(** A page whose [close()] throws after its analysis: [crawl] catches
    and logs the failure and returns normally; the result stays and the
    page's links are not followed. *)
Lemma crawl_page_close_fails
    (URL_parse : string -> option URL) (web : World)
    (fuel : nat) (m : Machine) (url : string) axeResults :
  let n := normalizeUrl URL_parse url in
  let line := LogCrawling n (size ({[ n ]} ∪ visitedUrls (this m)))
                          (maxPages (this m)) in
  let w := web (line :: effects m) n in
  not_ready (this m) = false ->
  rejected URL_parse (this m) n = false ->
  pb_newPage w = true -> pb_goto w = true -> pb_axe w = Some axeResults ->
  is_Some (pb_anchors w) -> pb_close w = false ->
  exists m' evs,
    crawl URL_parse web (S fuel) m url = Some m'
    /\ effects m' = ErrCrawling n :: CallClosePage n :: evs
    /\ map pr_url (results (this m')) = map pr_url (results (this m)) ++ [n].
Proof.
  intros n line w G1 G2 Hnew Hgoto Haxe [anchors Hanchors] Hclose.
  simpl. fold n. rewrite G1, G2.
  unfold open_page, catch_crawl. cbn. fold n. fold line. fold w.
  rewrite Hnew, Hgoto, Haxe, Hanchors, Hclose. cbn.
  destruct (pb_lighthouse w); cbn;
    match goal with |- context [budget_exhausted ?c] =>
      destruct (budget_exhausted c) end; cbn;
    eexists _, _; (split; [ reflexivity | ]); split; try reflexivity;
    cbn [this emit mutate push_result add_visited results]; by rewrite map_app.
Qed.

(** C6 (as amended).  [close] logs nothing and leaves the object as it
    is; it closes the context first and the browser second.  When every
    close call succeeds it returns normally, having closed each handle
    the crawler holds.  When closing the context throws, the exception
    propagates to the caller and closing the browser is not attempted;
    when closing the browser throws, the exception propagates as well.
    Only a page whose [close()] throws during the crawl has its failure
    caught and logged. *)
Theorem C6_close_stops_at_first_failure (ctx_ok br_ok : bool) (m : Machine) :
  let r := close ctx_ok br_ok m in
  (forall URL_parse web fuel url,
     let n := normalizeUrl URL_parse url in
     let w := web (LogCrawling n (size ({[ n ]} ∪ visitedUrls (this m)))
                               (maxPages (this m)) :: effects m) n in
     not_ready (this m) = false ->
     rejected URL_parse (this m) n = false ->
     pb_newPage w = true -> pb_goto w = true ->
     is_Some (pb_axe w) -> is_Some (pb_anchors w) -> pb_close w = false ->
     exists m' evs,
       crawl URL_parse web (S fuel) m url = Some m'
       /\ effects m' = ErrCrawling n :: CallClosePage n :: evs)
  /\ this (fst r) = this m
  /\ (exists calls,
        effects (fst r) = calls ++ effects m
        /\ calls `sublist_of` [CallCloseBrowser; CallCloseContext])
  /\ (ctx_ok = true -> br_ok = true ->
        snd r = true
        /\ effects (fst r)
           = (if browser (this m) then [CallCloseBrowser] else [])
             ++ (if context (this m) then [CallCloseContext] else [])
             ++ effects m)
  /\ (context (this m) = true -> ctx_ok = false ->
        snd r = false /\ effects (fst r) = CallCloseContext :: effects m)
  /\ (browser (this m) = true -> br_ok = false -> snd r = false).
Proof.
  split.
  { intros URL_parse web fuel url n w G1 G2 Hnew Hgoto [a Haxe] Hanchors Hclose.
    destruct (crawl_page_close_fails URL_parse web fuel m url a
                G1 G2 Hnew Hgoto Haxe Hanchors Hclose) as (m' & evs & Hc & He & _).
    by exists m', evs. }
  unfold close.
  destruct (context (this m)) eqn:C, (browser (this m)) eqn:B, ctx_ok, br_ok;
    cbn; rewrite ?C, ?B; cbn;
    (split; [ reflexivity | ]);
    (split; [ first [ exists [CallCloseBrowser; CallCloseContext]; by split
                    | exists [CallCloseContext]; split; [ done | ];
                      apply sublist_cons, sublist_skip, sublist_nil
                    | exists [CallCloseBrowser]; split; [ done | ];
                      apply sublist_skip, sublist_nil_l
                    | exists []; split; [ done | apply sublist_nil_l ] ] | ]);
    repeat split; intros; try done.
Qed.

Lemma C6_witness :
  let r := close true true (Demo.start 10) in
  snd r = true
  /\ effects (fst r) = [CallCloseBrowser; CallCloseContext].
Proof.
  destruct (C6_close_stops_at_first_failure true true (Demo.start 10))
    as (_ & _ & _ & H & _).
  exact (H eq_refl eq_refl).
Defined.

(** When closing the context fails, [close] throws and the browser is
    never closed. *)
Lemma C6_counterexample :
  let r := close false true (Demo.start 10) in
  browser (this (Demo.start 10)) = true
  /\ snd r = false
  /\ (CallCloseBrowser ∉ effects (fst r))
  /\ effects (fst r) = [CallCloseContext].
Proof.
  repeat split. cbn. intros H. apply list_elem_of_In in H. cbn in H.
  by destruct H as [? | []].
Qed.

(** An integer below [2^53] in magnitude is its own Number. *)
Lemma round_to_double_exact (n : Z) :
  Z.abs n < 2 ^ 53 -> round_to_double n = Finite n.
Proof.
  intros H. unfold round_to_double.
  by destruct (Z.ltb_spec (Z.abs n) (2 ^ 53)); [ | lia ].
Qed.

(** The scale of the double for an integer [a] of 54 bits or more. *)
Lemma double_scale (a : Z) :
  2 ^ 53 <= a ->
  let e := Z.log2 a - 52 in
  1 <= e /\ 2 ^ e = 2 * 2 ^ (e - 1) /\ 0 < 2 ^ (e - 1)
  /\ 2 ^ 52 <= a / 2 ^ e /\ a = a / 2 ^ e * 2 ^ e + a mod 2 ^ e
  /\ 0 <= a mod 2 ^ e < 2 ^ e.
Proof.
  intros Ha e.
  assert (53 <= Z.log2 a) as HL.
  { change 53 with (Z.log2 (2 ^ 53)). by apply Z.log2_le_mono. }
  assert (1 <= e) as He by (unfold e; lia).
  assert (0 < 2 ^ (e - 1)) as Hh by (apply Z.pow_pos_nonneg; lia).
  assert (2 ^ e = 2 * 2 ^ (e - 1)) as E2.
  { replace e with (Z.succ (e - 1)) at 1 by lia. apply Z.pow_succ_r. lia. }
  assert (0 < 2 ^ e) as Hp by lia.
  destruct (Z.log2_spec a ltac:(lia)) as [Hlo _].
  assert (2 ^ Z.log2 a = 2 ^ 52 * 2 ^ e) as EL.
  { rewrite <- Z.pow_add_r by lia. f_equal. unfold e. lia. }
  repeat split; try done.
  - apply Z.div_le_lower_bound; lia.
  - rewrite (Z.div_mod a (2 ^ e)) at 1 by lia. lia.
  - by apply Z.mod_pos_bound.
  - by apply Z.mod_pos_bound.
Qed.

(** From [2^53] on the Number keeps the sign and stays at [2^53] or
    beyond, or it is the infinity of that sign. *)
Lemma round_to_double_large (n : Z) :
  2 ^ 53 <= Z.abs n ->
  (exists z, round_to_double n = Finite z
             /\ 2 ^ 53 <= Z.abs z /\ Z.sgn z = Z.sgn n)
  \/ round_to_double n = Infinity (n <? 0).
Proof.
  intros H. unfold round_to_double.
  destruct (Z.ltb_spec (Z.abs n) (2 ^ 53)); [ lia | ].
  destruct (double_scale (Z.abs n) H) as (He & E2 & Hh & Hq & _ & _).
  cbv zeta. set (e := Z.log2 (Z.abs n) - 52) in *.
  set (q := Z.abs n / 2 ^ e) in *.
  set (q' := if _ : bool then q + 1 else q).
  assert (q <= q') as Hq' by (unfold q'; case_match; lia).
  destruct (Z.leb_spec (2 ^ 1024) (q' * 2 ^ e)); [ by right | left ].
  eexists. split; [ done | ].
  assert (2 ^ 53 <= q' * 2 ^ e) as Hv by nia.
  split; [ | nia ].
  destruct (Z.abs_spec n) as [[? ?] | [? ?]]; nia.
Qed.

(** The double is a nearest one: it is a multiple of the scale and at
    most half a scale away. *)
Lemma round_to_double_nearest (n z : Z) :
  2 ^ 53 <= Z.abs n ->
  round_to_double n = Finite z ->
  let e := Z.log2 (Z.abs n) - 52 in
  (exists k, z = k * 2 ^ e) /\ 2 * Z.abs (z - n) <= 2 ^ e.
Proof.
  intros H. unfold round_to_double.
  destruct (Z.ltb_spec (Z.abs n) (2 ^ 53)); [ lia | ].
  destruct (double_scale (Z.abs n) H) as (He & E2 & Hh & Hq & Ha & Hr).
  cbv zeta. set (e := Z.log2 (Z.abs n) - 52) in *.
  set (q := Z.abs n / 2 ^ e) in *. set (r := Z.abs n mod 2 ^ e) in *.
  set (h := 2 ^ (e - 1)) in *.
  set (q' := if _ : bool then q + 1 else q).
  assert (q' = q /\ r <= h \/ q' = q + 1 /\ h <= r) as Hq'.
  { unfold q'. destruct (Z.ltb_spec h r); cbn [orb]; [ lia | ].
    destruct (Z.eqb_spec r h); cbn [andb]; [ destruct (Z.odd q) | ]; lia. }
  clearbody q'.
  destruct (Z.leb_spec (2 ^ 1024) (q' * 2 ^ e)) as [ | _ ]; [ done | ].
  intros [= <-]. split.
  - exists (Z.sgn n * q'). by rewrite <- Z.mul_assoc.
  - assert (n <> 0) as Hn by lia.
    clear H H0 Hq He. clearbody e q r h. generalize dependent (2 ^ e).
    intros p E2 Ha Hr.
    destruct (Z.abs_spec n) as [[? En] | [? En]]; rewrite En in *;
      [ rewrite Z.sgn_pos by lia | rewrite Z.sgn_neg by lia ];
      destruct Hq' as [[-> ?] | [-> ?]]; lia.
Qed.

(** Only the integer 0 gives a falsy Number. *)
Lemma round_to_double_truthy (n : Z) :
  n <> 0 -> number_truthy (round_to_double n) = true.
Proof.
  intros Hn. destruct (Z.lt_ge_cases (Z.abs n) (2 ^ 53)) as [H | H].
  - rewrite round_to_double_exact by done. cbn.
    by destruct (Z.eqb_spec n 0).
  - destruct (round_to_double_large n H) as [(z & -> & Hz & _) | ->];
      [ | done ].
    cbn. destruct (Z.eqb_spec z 0); [ lia | done ].
Qed.

(** [parseInt] is [NaN] without a leading integer, and a zero only for
    the integer 0. *)
Lemma parseInt_falsy (v : string) :
  number_truthy (parseInt v) = false
  <-> read_integer v = None \/ read_integer v = Some 0.
Proof.
  unfold parseInt. destruct (read_integer v) as [n|]; [ | by split; [ left | ] ].
  destruct (Z.eq_dec n 0) as [-> | Hn].
  - by split; [ right | ].
  - rewrite round_to_double_truthy by done.
    split; [ done | intros [? | ?]; simplify_eq ].
Qed.

(** The budget, when [--max-pages] has a value. *)
Lemma budget_of_args_value (args : list string) (v : string) :
  option_value "--max-pages" args = Some v ->
  budget_of_args args
  = if number_truthy (parseInt v) then parseInt v else Finite 10.
Proof. intros E. unfold budget_of_args. by rewrite E. Qed.

(** C7 (as amended).  The budget [main] computes is never [NaN] and
    never zero.  It is 10 when [--max-pages] is absent, has no value or
    an empty one, or when the value has no leading integer or that
    integer is 0.  Otherwise it is [parseInt] of the value: the integer
    read when that is below [2^53] in magnitude, and from [2^53] on a
    Number of the same sign and of magnitude [2^53] or more, or the
    infinity of that sign.  The crawler is constructed with the budget
    whenever it is finite. *)
Theorem C7_budget_of_arguments (args : list string) :
  budget_of_args args <> NaN
  /\ budget_of_args args <> Finite 0
  /\ (option_value "--max-pages" args = None -> budget_of_args args = Finite 10)
  /\ (forall v,
        option_value "--max-pages" args = Some v ->
        (read_integer v = None \/ read_integer v = Some 0 ->
         budget_of_args args = Finite 10)
        /\ (forall n,
              read_integer v = Some n -> n <> 0 ->
              budget_of_args args = parseInt v
              /\ (Z.abs n < 2 ^ 53 -> budget_of_args args = Finite n)
              /\ (2 ^ 53 <= Z.abs n ->
                  (exists z, budget_of_args args = Finite z
                             /\ 2 ^ 53 <= Z.abs z /\ Z.sgn z = Z.sgn n)
                  \/ budget_of_args args = Infinity (n <? 0))))
  /\ (forall z, budget_of_args args = Finite z -> maxPages_of_args args = z).
Proof.
  assert (number_truthy (budget_of_args args) = true) as Ht.
  { unfold budget_of_args. destruct (option_value _ args) as [v|]; [ | done ].
    cbv zeta. by destruct (number_truthy (parseInt v)) eqn:T. }
  split; [ intros E; by rewrite E in Ht | ].
  split; [ intros E; by rewrite E in Ht | ].
  split; [ intros E; unfold budget_of_args; by rewrite E | ].
  split; [ | intros z E; unfold maxPages_of_args; by rewrite E ].
  intros v Hv. rewrite (budget_of_args_value args v Hv). split.
  - intros H%parseInt_falsy. by rewrite H.
  - intros n Hn Hne.
    assert (parseInt v = round_to_double n) as P
      by (unfold parseInt; by rewrite Hn).
    rewrite P, round_to_double_truthy by done.
    split; [ done | ]. split.
    + apply round_to_double_exact.
    + apply round_to_double_large.
Qed.

Lemma C7_witness :
  budget_of_args ["https://example.com"; "--max-pages"; "25"] = Finite 25
  /\ budget_of_args ["https://example.com"; "--max-pages"; "many"] = Finite 10
  /\ maxPages_of_args ["https://example.com"; "--max-pages"; "25"] = 25.
Proof.
  destruct (C7_budget_of_arguments
              ["https://example.com"; "--max-pages"; "25"])
    as (_ & _ & _ & H & M).
  destruct (C7_budget_of_arguments
              ["https://example.com"; "--max-pages"; "many"])
    as (_ & _ & _ & H' & _).
  assert (budget_of_args ["https://example.com"; "--max-pages"; "25"]
          = Finite 25) as B.
  { apply (proj2 (H "25" eq_refl) 25 eq_refl); [ done | reflexivity ]. }
  split; [ exact B | split ].
  - apply (proj1 (H' "many" eq_refl)). by left.
  - exact (M 25 B).
Defined.

(** The value [0] is numeric and yields the budget 10; the value [-5] is
    numeric and yields a negative budget; the value [2^53 + 1] is
    numeric and yields the budget [2^53]; a value of 310 digits is
    numeric and yields an infinite budget. *)
Lemma C7_counterexample :
  parseInt "0" = Finite 0
  /\ budget_of_args ["https://example.com"; "--max-pages"; "0"] = Finite 10
  /\ parseInt "-5" = Finite (-5)
  /\ budget_of_args ["https://example.com"; "--max-pages"; "-5"] = Finite (-5)
  /\ budget_of_args ["https://example.com"; "--max-pages"; "9007199254740993"]
     = Finite 9007199254740992
  /\ budget_of_args [ "https://example.com"; "--max-pages";
                      string_of_list_ascii (repeat "9"%char 310) ]
     = Infinity false.
Proof. repeat split; by vm_compute. Qed.

Example parseInt_examples :
  parseInt "20" = Finite 20 /\ parseInt "  12abc" = Finite 12
  /\ parseInt "3.7" = Finite 3 /\ parseInt "0x1F" = Finite 31
  /\ parseInt "+7" = Finite 7 /\ parseInt "-0" = Finite 0
  /\ parseInt "abc" = NaN /\ parseInt "" = NaN /\ parseInt "-" = NaN.
Proof. repeat split. Qed.

(** Rounding at the first integers a double cannot hold, at a tie, and
    at the largest double. *)
Example round_to_double_examples :
  round_to_double (2 ^ 53) = Finite (2 ^ 53)
  /\ round_to_double (2 ^ 53 + 1) = Finite (2 ^ 53)
  /\ round_to_double (2 ^ 53 + 2) = Finite (2 ^ 53 + 2)
  /\ round_to_double (2 ^ 53 + 3) = Finite (2 ^ 53 + 4)
  /\ round_to_double (- (2 ^ 53 + 3)) = Finite (- (2 ^ 53 + 4))
  /\ round_to_double (2 ^ 54 + 2) = Finite (2 ^ 54)
  /\ round_to_double (2 ^ 54 + 6) = Finite (2 ^ 54 + 8)
  /\ round_to_double (2 ^ 1024 - 2 ^ 971) = Finite (2 ^ 1024 - 2 ^ 971)
  /\ round_to_double (2 ^ 1024 - 2 ^ 970 - 1) = Finite (2 ^ 1024 - 2 ^ 971)
  /\ round_to_double (2 ^ 1024 - 2 ^ 970) = Infinity false
  /\ round_to_double (- 10 ^ 309) = Infinity true
  /\ round_to_double (10 ^ 308)
     = Finite (5010420900022432 * 2 ^ 971).
Proof. repeat split; by vm_compute. Qed.

Example budget_without_value :
  maxPages_of_args ["https://example.com"; "--max-pages"] = 10
  /\ maxPages_of_args ["https://example.com"] = 10
  /\ maxPages_of_args ["https://example.com"; "--max-pages"; ""] = 10.
Proof. repeat split. Qed.

(** [crawl_run], which [main] uses, is [crawl] with fuel that suffices. *)
Lemma crawl_run_spec (URL_parse : string -> option URL) (web : World) m url :
  crawl URL_parse web (enough_fuel m) m url
  = Some (crawl_run URL_parse web m url).
Proof.
  unfold crawl_run.
  destruct (crawl_total URL_parse web (enough_fuel m) m url) as [m' ->];
    [ unfold enough_fuel; lia | done ].
Qed.

Example main_fulfilled :
  outcome (main SimpleURL.parse Demo.site Demo.toFixed Demo.toLocaleString
                Demo.Date_parse Demo.quiet_world
                ["https://example.com"; "--max-pages"; "3"])
  = Fulfilled.
Proof. by vm_compute. Qed.

Example main_usage_error :
  outcome (main SimpleURL.parse Demo.site Demo.toFixed Demo.toLocaleString
                Demo.Date_parse Demo.quiet_world ["--max-pages"; "3"])
  = Exited 1.
Proof. by vm_compute. Qed.

(** A failing context close at the end of a successful run rejects the
    promise of [main]. *)
Example main_rejected_by_close :
  outcome (main SimpleURL.parse Demo.site Demo.toFixed Demo.toLocaleString
                Demo.Date_parse
                (mkMainWorld true true true false true "2025-09-29T23:42:29.123Z" 0)
                ["https://example.com"])
  = Rejected.
Proof. by vm_compute. Qed.

(** When writing the report fails, [process.exit(1)] ends the run inside
    the [catch]. *)
Example main_exit_on_write_failure :
  let r := main SimpleURL.parse Demo.site Demo.toFixed Demo.toLocaleString
                Demo.Date_parse
                (mkMainWorld true true false true true "2025-09-29T23:42:29.123Z" 0)
                ["https://example.com"] in
  outcome r = Exited 1.
Proof. by vm_compute. Qed.

Example main_default_output_file :
  exists report,
    WriteFile "reports/example-com-2025-09-29T23-42-29.md" report
    ∈ main_events
        (main SimpleURL.parse Demo.site Demo.toFixed Demo.toLocaleString
              Demo.Date_parse Demo.quiet_world ["https://example.com"]).
Proof.
  eexists. apply list_elem_of_In. vm_compute. right. right. left. reflexivity.
Qed.

(** * More of the crawl controller *)

Section MoreCrawlFacts.

Variable URL_parse : string -> option URL.
Variable web : World.

Lemma sublist_reverse {A} (l1 l2 : list A) :
  l1 `sublist_of` l2 -> reverse l1 `sublist_of` reverse l2.
Proof.
  induction 1 as [|x l1 l2 _ IH|x l1 l2 _ IH]; [ done | | ];
    rewrite ?reverse_cons.
  - by apply sublist_app.
  - by apply sublist_inserts_r.
Qed.

Lemma demo_run_spec w budget :
  crawl SimpleURL.parse w (enough_fuel (Demo.start budget)) (Demo.start budget)
        "https://example.com"
  = Some (Demo.run w budget).
Proof.
  unfold Demo.run.
  destruct (crawl_total SimpleURL.parse w (enough_fuel (Demo.start budget))
              (Demo.start budget) "https://example.com") as [m' ->];
    [ unfold enough_fuel; lia | done ].
Qed.

(** With a budget of zero or less the first guard always fires. *)
Lemma crawl_without_budget fuel m url m' :
  maxPages (this m) <= 0 ->
  crawl URL_parse web fuel m url = Some m' -> m' = m.
Proof.
  intros Hb Hc. destruct fuel as [|fuel]; [ done | ].
  rewrite crawl_budget_exhausted in Hc; [ by simplify_eq | ].
  unfold budget_exhausted. apply Z.leb_le. lia.
Qed.

Lemma crawl_without_handles fuel m url m' :
  browser (this m) = false \/ context (this m) = false ->
  crawl URL_parse web fuel m url = Some m' -> m' = m.
Proof.
  intros Hh Hc. destruct fuel as [|fuel]; [ done | ]. simpl in Hc.
  unfold not_ready in Hc. destruct Hh as [Hh | Hh]; rewrite Hh in Hc;
    cbn in Hc; rewrite ?orb_true_r in Hc; cbn in Hc; by simplify_eq.
Qed.

Lemma open_page_lines m n m1 next :
  open_page web m n = (m1, next) ->
  crawling_lines (effects m1)
  = (size ({[ n ]} ∪ visitedUrls (this m)), maxPages (this m))
    :: crawling_lines (effects m)
  /\ List.filter is_handle_close (effects m1)
     = List.filter is_handle_close (effects m).
Proof.
  unfold open_page, catch_crawl. intros H.
  repeat case_match; simplify_eq; by cbn.
Qed.

End MoreCrawlFacts.

(** X1. A call of [crawl] only ever extends the session: the visited set
    keeps its members, the accumulated results stay as a prefix of the
    new results (a stored result is never changed, dropped or moved),
    the effects so far stay as the oldest part of the trace, and the
    base origin, the budget and the two handles are left as they are. *)
Theorem X1_crawl_only_extends
    (URL_parse : string -> option URL) (web : World)
    (fuel : nat) (m m' : Machine) (url : string) :
  crawl URL_parse web fuel m url = Some m' ->
  visitedUrls (this m) ⊆ visitedUrls (this m')
  /\ results (this m) `prefix_of` results (this m')
  /\ effects m `suffix_of` effects m'
  /\ states m `suffix_of` states m'
  /\ baseUrl (this m') = baseUrl (this m)
  /\ maxPages (this m') = maxPages (this m)
  /\ browser (this m') = browser (this m)
  /\ context (this m') = context (this m).
Proof.
  intros Hc.
  destruct (crawl_continues URL_parse web _ _ _ _ Hc)
    as ([V R B M] & E & S & Hb & Hx).
  by repeat split.
Qed.

Lemma X1_witness :
  results (this (Demo.start 10))
    `prefix_of` results (this (Demo.run Demo.site 10))
  /\ maxPages (this (Demo.run Demo.site 10)) = 10.
Proof.
  destruct (X1_crawl_only_extends SimpleURL.parse Demo.site _ _ _ _
              (demo_run_spec Demo.site 10)) as (_ & R & _ & _ & _ & M & _).
  exact (conj R M).
Defined.

(** X2. The results of a session are in the order in which their pages
    were reserved: the result URLs, first to last, are a subsequence of
    the URLs of the [Crawling:] lines, first to last; and every result
    belongs to a page that was navigated to and analysed by axe. *)
Theorem X2_results_in_reservation_order
    (URL_parse : string -> option URL) (web : World) (m : Machine) :
  reachable URL_parse web m ->
  map pr_url (results (this m)) `sublist_of` reverse (reserved (effects m))
  /\ (forall r, r ∈ results (this m) ->
        pr_url r ∈ navigated (effects m) /\ pr_url r ∈ analysed (effects m)).
Proof.
  intros Hr. destruct (reachable_ok URL_parse web m Hr) as (_ & Ht & _).
  destruct Ht as [_ _ TN TA TR].
  split.
  - rewrite <- (reverse_involutive (map pr_url (results (this m)))).
    apply sublist_reverse. by do 2 (etrans; [ | eassumption ]).
  - intros r Hin.
    assert (pr_url r ∈ analysed (effects m)) as Ha.
    { eapply elem_of_sublist; [ | exact TR ].
      apply elem_of_reverse, list_elem_of_fmap. by exists r. }
    split; [ by eapply elem_of_sublist | exact Ha ].
Qed.

Lemma X2_witness :
  map pr_url (results (this (Demo.run Demo.broken_site 10)))
    `sublist_of` reverse (reserved (effects (Demo.run Demo.broken_site 10))).
Proof.
  exact (proj1 (X2_results_in_reservation_order SimpleURL.parse Demo.broken_site
                  _ (demo_run_reachable _ _))).
Defined.

Section NumberedLines.

Variable URL_parse : string -> option URL.
Variable web : World.

Lemma open_page_lines_ok m n m1 next :
  rejected URL_parse (this m) n = false ->
  open_page web m n = (m1, next) ->
  lines_ok m -> lines_ok m1.
Proof.
  intros G2 O [Hk Hb].
  apply rejected_false in G2 as (Hn & _).
  destruct (open_page_lines web _ _ _ _ O) as [Hl _].
  assert (visitedUrls (this m1) = {[ n ]} ∪ visitedUrls (this m)
          /\ maxPages (this m1) = maxPages (this m)) as [HV HM].
  { by destruct (open_page_shape web _ _ _ _ O) as [T _ _ _ | r _ T _ _ _];
      rewrite T. }
  unfold lines_ok. rewrite Hl, HV, HM. cbn [map fst]. split.
  - rewrite Hk, size_add_fresh, seq_S, reverse_snoc by done. done.
  - by apply Forall_cons.
Qed.

Lemma reachable_lines_ok m : reachable URL_parse web m -> lines_ok m.
Proof.
  induction 1 as [startUrl budget c Hc | m launch newContext _ IH
                 | m fuel url m' _ IH Hc | m ctx_ok br_ok _ IH].
  - unfold construct in Hc. destruct (URL_parse startUrl); [ | done ].
    simplify_eq. split; [ | by apply Forall_nil ].
    cbn. by rewrite size_empty.
  - unfold initialize. by destruct launch, newContext.
  - revert IH.
    apply (crawl_steps URL_parse web (fun m m' => lines_ok m -> lines_ok m'))
      with (fuel := fuel) (url := url); eauto.
    intros. by eapply open_page_lines_ok.
  - unfold close.
    by destruct (context (this m)), ctx_ok; cbn;
      repeat (destruct (browser _); cbn).
Qed.

Lemma reachable_without_budget m :
  reachable URL_parse web m ->
  maxPages (this m) <= 0 ->
  visitedUrls (this m) = ∅ /\ results (this m) = []
  /\ List.filter (fun e => negb (is_handle_close e)) (effects m) = [].
Proof.
  induction 1 as [startUrl budget c Hc | m launch newContext _ IH
                 | m fuel url m' _ IH Hc | m ctx_ok br_ok _ IH]; intros Hb.
  - unfold construct in Hc. destruct (URL_parse startUrl); [ | done ].
    by simplify_eq.
  - unfold initialize in *. by destruct launch, newContext; cbn in *; apply IH.
  - assert (maxPages (this m) <= 0) as Hb'.
    { apply crawl_continues in Hc as ([_ _ _ <-] & _). exact Hb. }
    apply (crawl_without_budget URL_parse web) in Hc; [ | done ].
    subst m'. by apply IH.
  - unfold close in *.
    by destruct (context (this m)), ctx_ok; cbn in *;
      destruct (browser (this m)); cbn in *; apply IH.
Qed.

End NumberedLines.

(** X3. The [Crawling:] lines of a session are numbered 1, 2, 3, ... in
    the order they are printed, the last number is the size of the
    visited set, and every line shows the session's budget. *)
Theorem X3_crawling_lines_are_numbered
    (URL_parse : string -> option URL) (web : World) (m : Machine) :
  reachable URL_parse web m ->
  reverse (map fst (crawling_lines (effects m)))
  = seq 1 (size (visitedUrls (this m)))
  /\ Forall (fun l => snd l = maxPages (this m)) (crawling_lines (effects m)).
Proof.
  intros Hr. destruct (reachable_lines_ok URL_parse web m Hr) as [Hk Hb].
  split; [ | exact Hb ]. by rewrite Hk, reverse_involutive.
Qed.

Lemma X3_witness :
  reverse (map fst (crawling_lines (effects (Demo.run Demo.broken_site 10))))
  = seq 1 (size (visitedUrls (this (Demo.run Demo.broken_site 10)))).
Proof.
  exact (proj1 (X3_crawling_lines_are_numbered SimpleURL.parse Demo.broken_site
                  _ (demo_run_reachable _ _))).
Defined.

(** X4. With a page budget of zero or less a session never reserves,
    opens or analyses anything: the visited set and the results stay
    empty, and the only effects are calls that close the handles. *)
Theorem X4_no_budget_no_crawl
    (URL_parse : string -> option URL) (web : World) (m : Machine) :
  reachable URL_parse web m ->
  maxPages (this m) <= 0 ->
  visitedUrls (this m) = ∅
  /\ results (this m) = []
  /\ (forall e, e ∈ effects m -> is_handle_close e = true).
Proof.
  intros Hr Hb.
  destruct (reachable_without_budget URL_parse web m Hr Hb) as (V & R & E).
  split; [ exact V | ]. split; [ exact R | ].
  intros e He. destruct (is_handle_close e) eqn:C; [ done | ].
  assert (e ∈ List.filter (fun e => negb (is_handle_close e)) (effects m)) as Hin.
  { apply list_elem_of_In, filter_In. split; [ by apply list_elem_of_In | ].
    by rewrite C. }
  rewrite E in Hin. by apply elem_of_nil in Hin.
Qed.

Lemma X4_witness :
  let m := fst (close true true
                  (Demo.run Demo.site (maxPages_of_args
                     ["https://example.com"; "--max-pages"; "-5"]))) in
  visitedUrls (this m) = ∅ /\ results (this m) = [].
Proof.
  destruct (X4_no_budget_no_crawl SimpleURL.parse Demo.site
              (fst (close true true (Demo.run Demo.site (-5)))))
    as (V & R & _).
  - apply reach_close, demo_run_reachable.
  - by vm_compute.
  - exact (conj V R).
Defined.

(** X5. Until [initialize] has succeeded [crawl] does nothing: on a
    crawler that was only constructed, or whose [initialize] threw at
    the launch or at the new context, every call returns at once and
    leaves the session untouched. *)
Theorem X5_crawl_needs_initialize
    (URL_parse : string -> option URL) (web : World)
    (startUrl : string) (budget : option Z) (c : Crawler)
    (launch newContext : bool) (m1 m' : Machine) (fuel : nat) (url : string) :
  construct URL_parse startUrl budget = Some c ->
  m1 = mkMachine c [] []
  \/ initialize launch newContext (mkMachine c [] []) = (m1, false) ->
  crawl URL_parse web fuel m1 url = Some m' ->
  m' = m1.
Proof.
  intros Hc Hm1. apply crawl_without_handles.
  unfold construct in Hc. destruct (URL_parse startUrl); [ | done ].
  simplify_eq. destruct Hm1 as [-> | Hi]; [ by left | ].
  unfold initialize in Hi.
  destruct launch, newContext; cbn in Hi; simplify_eq; cbn; auto.
Qed.

Lemma X5_witness :
  crawl SimpleURL.parse Demo.site 11
        (fst (initialize true false (Demo.fresh 10))) "https://example.com"
  = Some (fst (initialize true false (Demo.fresh 10))).
Proof.
  destruct (crawl_total SimpleURL.parse Demo.site 11
              (fst (initialize true false (Demo.fresh 10)))
              "https://example.com") as [m' Hm'].
  - by vm_compute.
  - rewrite Hm'. f_equal.
    eapply (X5_crawl_needs_initialize SimpleURL.parse Demo.site
              "https://example.com" (Some 10) _ true false); try exact Hm'.
    + reflexivity.
    + right. reflexivity.
Defined.

(** A page that loads and passes axe gets its result pushed. *)
Lemma open_page_analysed (web : World) m n m1 next axeResults :
  let line := LogCrawling n (size ({[ n ]} ∪ visitedUrls (this m)))
                          (maxPages (this m)) in
  let w := web (line :: effects m) n in
  pb_newPage w = true -> pb_goto w = true -> pb_axe w = Some axeResults ->
  open_page web m n = (m1, next) ->
  this m1 = push_result
              (mkPageResult n axeResults (lighthouse_result (pb_lighthouse w))
                            (pb_now w))
              (add_visited n (this m))
  /\ (pb_lighthouse w = LhThrows -> ErrLighthouse n ∈ effects m1).
Proof.
  intros line w Hnew Hgoto Haxe. unfold open_page, catch_crawl. cbn.
  fold line. fold w. rewrite Hnew, Hgoto, Haxe. cbn.
  destruct (pb_lighthouse w) eqn:L; cbn;
    repeat case_match; intros; simplify_eq; (split; [ reflexivity | ]);
    intros; try done; cbn; rewrite !elem_of_cons; tauto.
Qed.

Section PageFacts.

Variable URL_parse : string -> option URL.
Variable web : World.

Lemma crawl_after_open fuel m url m1 next m' :
  not_ready (this m) = false ->
  rejected URL_parse (this m) (normalizeUrl URL_parse url) = false ->
  open_page web m (normalizeUrl URL_parse url) = (m1, next) ->
  crawl URL_parse web (S fuel) m url = Some m' ->
  continues m1 m'.
Proof.
  intros G1 G2 O Hc. simpl in Hc. rewrite G1, G2, O in Hc.
  destruct next as [links|]; [ | simplify_eq; apply continues_refl ].
  eapply (for_links_steps continues); eauto using continues_refl, continues_trans.
  intros. by eapply crawl_continues.
Qed.

End PageFacts.

(** X6. A page that loads and passes the axe analysis always gets its
    result, whatever Lighthouse does: the result carries the canonical
    URL, the axe results as returned, the time stamp, and the Lighthouse
    result or [null] when Lighthouse threw or resolved to nothing; it is
    pushed before any link of the page is followed, and a Lighthouse
    exception is logged. *)
Theorem X6_lighthouse_failure_keeps_the_page
    (URL_parse : string -> option URL) (web : World)
    (fuel : nat) (m m' : Machine) (url : string) (axeResults : AxeResults) :
  let n := normalizeUrl URL_parse url in
  let w := web (LogCrawling n (size ({[ n ]} ∪ visitedUrls (this m)))
                            (maxPages (this m)) :: effects m) n in
  not_ready (this m) = false ->
  rejected URL_parse (this m) n = false ->
  pb_newPage w = true -> pb_goto w = true -> pb_axe w = Some axeResults ->
  crawl URL_parse web (S fuel) m url = Some m' ->
  results (this m)
    ++ [ mkPageResult n axeResults (lighthouse_result (pb_lighthouse w)) (pb_now w) ]
    `prefix_of` results (this m')
  /\ (pb_lighthouse w = LhThrows -> ErrLighthouse n ∈ effects m').
Proof.
  intros n w G1 G2 Hnew Hgoto Haxe Hc.
  destruct (open_page web m n) as [m1 next] eqn:O.
  destruct (open_page_analysed web m n m1 next axeResults Hnew Hgoto Haxe O)
    as [T L].
  destruct (crawl_after_open URL_parse web _ _ _ _ _ _ G1 G2 O Hc)
    as ([_ R _ _] & [k E] & _).
  split.
  - by rewrite T in R.
  - intros Ht. rewrite E. apply elem_of_app. right. by apply L.
Qed.

(** A site whose pages load while Lighthouse throws on every one. *)
Lemma X6_witness :
  let w : World := fun _ _ =>
    mkBehaviour true true (Some Demo.no_violation) LhThrows "t" (Some []) true in
  exists m',
    crawl SimpleURL.parse w 11 (Demo.start 10) "https://example.com" = Some m'
    /\ [ mkPageResult "https://example.com/" Demo.no_violation None "t" ]
         `prefix_of` results (this m')
    /\ ErrLighthouse "https://example.com/" ∈ effects m'.
Proof.
  intros w.
  destruct (crawl_total SimpleURL.parse w 11 (Demo.start 10)
              "https://example.com") as [m' Hm']; [ by vm_compute | ].
  exists m'. split; [ exact Hm' | ].
  destruct (X6_lighthouse_failure_keeps_the_page SimpleURL.parse w 10
              (Demo.start 10) m' "https://example.com" Demo.no_violation)
    as [R L]; try reflexivity; try exact Hm'.
  split; [ exact R | exact (L eq_refl) ].
Defined.

(** X7. The page that fills the budget is analysed and closed, and its
    links are never extracted: [crawl] makes exactly the calls below and
    returns without a recursive call, whatever the page links to. *)
Theorem X7_last_page_is_not_expanded
    (URL_parse : string -> option URL) (web : World)
    (fuel : nat) (m : Machine) (url : string) (axeResults : AxeResults) :
  let n := normalizeUrl URL_parse url in
  let line := LogCrawling n (size ({[ n ]} ∪ visitedUrls (this m)))
                          (maxPages (this m)) in
  let w := web (line :: effects m) n in
  not_ready (this m) = false ->
  rejected URL_parse (this m) n = false ->
  maxPages (this m) = Z.of_nat (size (visitedUrls (this m))) + 1 ->
  pb_newPage w = true -> pb_goto w = true -> pb_axe w = Some axeResults ->
  exists m',
    crawl URL_parse web (S fuel) m url = Some m'
    /\ this m' = push_result
                   (mkPageResult n axeResults
                      (lighthouse_result (pb_lighthouse w)) (pb_now w))
                   (add_visited n (this m))
    /\ effects m'
       = (if pb_close w then [] else [ErrCrawling n])
         ++ [CallClosePage n]
         ++ match pb_lighthouse w with
            | LhThrows => [ErrLighthouse n]
            | _ => []
            end
         ++ [CallLighthouse n cdpPort; CallAxe n; CallGoto n; CallNewPage; line]
         ++ effects m.
Proof.
  intros n line w G1 G2 Hfull Hnew Hgoto Haxe.
  apply rejected_false in G2 as Hn. destruct Hn as (Hn & _).
  assert ((maxPages (this m) <=? Z.of_nat (size ({[ n ]} ∪ visitedUrls (this m))))
          = true) as Hex.
  { rewrite size_add_fresh by done. apply Z.leb_le. lia. }
  simpl. fold n. rewrite G1, G2.
  unfold open_page, catch_crawl, budget_exhausted. cbn. fold n. fold line. fold w.
  rewrite Hnew, Hgoto, Haxe. cbn.
  destruct (pb_lighthouse w) eqn:L; cbn; rewrite Hex; cbn;
    destruct (pb_close w); cbn; eexists; by repeat split.
Qed.

Lemma X7_witness :
  exists m',
    crawl SimpleURL.parse Demo.site 1 (Demo.start 1) "https://example.com"
    = Some m'
    /\ map pr_url (results (this m')) = [ "https://example.com/" ].
Proof.
  destruct (X7_last_page_is_not_expanded SimpleURL.parse Demo.site 0
              (Demo.start 1) "https://example.com" Demo.no_violation)
    as (m' & Hc & T & _); try reflexivity.
  exists m'. split; [ exact Hc | ]. by rewrite T.
Defined.

(** * More of the report *)

Section SummaryFacts.

Lemma fold_left_lengths {A B} (g : A -> list B) (l : list A) (acc : nat) :
  fold_left (fun sum r => (sum + length (g r))%nat) l acc
  = (acc + length (concat (map g l)))%nat.
Proof.
  revert acc. induction l as [|a l IH]; intros acc; cbn [fold_left map concat].
  - cbn. lia.
  - rewrite IH, length_app. lia.
Qed.

Lemma filter_concat {A} (p : A -> bool) (ls : list (list A)) :
  concat (map (List.filter p) ls) = List.filter p (concat ls).
Proof.
  induction ls as [|l ls IH]; [ done | ].
  cbn [map concat]. by rewrite List.filter_app, IH.
Qed.

Lemma count_impact_all key rs :
  count_impact key rs = length (List.filter (impact_is key) (all_violations rs)).
Proof.
  unfold count_impact, all_violations.
  rewrite (fold_left_lengths
             (fun r => List.filter (impact_is key) (violations (pr_axeResults r)))).
  rewrite <- filter_concat, map_map. done.
Qed.

Lemma exclusive_filters {A} (p q : A -> bool) (l : list A) :
  (forall x, p x = true -> q x = true -> False) ->
  (length (List.filter p l) + length (List.filter q l) <= length l)%nat.
Proof.
  intros Hpq. induction l as [|x l IH]; [ done | ].
  cbn [List.filter]. specialize (Hpq x).
  destruct (p x), (q x); cbn [length]; first [ lia | by destruct Hpq ].
Qed.

End SummaryFacts.

(** X8. The summary of the report counts over all pages together: the
    total is the number of violations of all pages, each severity count
    is the number of those that carry that impact, and the critical and
    the serious count together never exceed the total. *)
Theorem X8_summary_counts (rs : list PageResult) :
  total_violations rs = length (all_violations rs)
  /\ (forall key,
        count_impact key rs
        = length (List.filter (impact_is key) (all_violations rs)))
  /\ (count_impact "critical" rs + count_impact "serious" rs
      <= total_violations rs)%nat.
Proof.
  assert (total_violations rs = length (all_violations rs)) as Ht.
  { unfold total_violations, all_violations.
    by rewrite (fold_left_lengths (fun r => violations (pr_axeResults r))). }
  split; [ exact Ht | ]. split; [ intros key; apply count_impact_all | ].
  rewrite Ht, !count_impact_all. apply exclusive_filters.
  intros v H1%impact_is_inv H2%impact_is_inv. congruence.
Qed.

(** X9. Only the first three affected elements of a violation are ever
    rendered: two violations that agree on everything but the elements
    after the third, and have as many elements, render the same. *)
Theorem X9_only_three_elements_rendered (v v' : Violation) :
  v_id v = v_id v' -> v_impact v = v_impact v' -> v_help v = v_help v' ->
  v_description v = v_description v' -> v_helpUrl v = v_helpUrl v' ->
  length (v_nodes v) = length (v_nodes v') ->
  take 3 (v_nodes v) = take 3 (v_nodes v') ->
  render_violation v = render_violation v'.
Proof.
  intros Hid Hi Hh Hd Hu Hl Ht.
  assert (forall k (l : list NodeResult),
            take (Nat.min k 3) l = take (Nat.min k 3) (take 3 l)) as Htake.
  { intros k l. rewrite take_take. f_equal. lia. }
  unfold render_violation, show_impact.
  rewrite Hid, Hi, Hh, Hd, Hu, Hl.
  by rewrite (Htake _ (v_nodes v)), (Htake _ (v_nodes v')), Ht.
Qed.

Lemma X9_witness :
  let node k := mkNode k None in
  render_violation
    (mkViolation "image-alt" (Some "critical") "h" "d" "u"
                 [ node "a"; node "b"; node "c"; node "d"; node "e" ])
  = render_violation
      (mkViolation "image-alt" (Some "critical") "h" "d" "u"
                   [ node "a"; node "b"; node "c"; node "x"; node "y" ]).
Proof.
  intros node. by apply X9_only_three_elements_rendered.
Defined.

(** X10. A page whose violations all lack a named severity still shows
    the heading with their number, and lists none of them. *)
Theorem X10_unnamed_violations_are_counted_not_listed (vs : list Violation) :
  vs <> [] ->
  Forall (fun v => named_severity v = false) vs ->
  render_axe (mkAxe vs)
  = cat [ "### Axe-core Violations ("; show_nat (length vs); ")"; LF; LF ].
Proof.
  intros Hne Hun.
  assert (forall key, key ∈ severities -> List.filter (impact_is key) vs = []) as Hf.
  { intros key Hk. induction Hun as [|v vs' Hv _ IH]; [ done | ].
    cbn [List.filter].
    assert (impact_is key v = false) as ->.
    { destruct (impact_is key v) eqn:E; [ | done ].
      unfold named_severity in Hv.
      assert (existsb (fun k => impact_is k v) severities = true) as Hex;
        [ | congruence ].
      apply existsb_exists. exists key. split; [ by apply list_elem_of_In | done ]. }
    destruct vs' as [|v' vs'']; [ done | ]. by apply IH. }
  unfold render_axe, byImpact. cbn [violations].
  destruct vs as [|v vs']; [ done | ]. cbn [length Nat.eqb].
  rewrite !Hf by (unfold severities; rewrite !elem_of_cons; tauto).
  reflexivity.
Qed.

Lemma X10_witness :
  render_axe (mkAxe [Demo.no_impact; Demo.no_impact])
  = cat [ "### Axe-core Violations ("; show_nat 2; ")"; LF; LF ].
Proof.
  apply (X10_unnamed_violations_are_counted_not_listed
           [Demo.no_impact; Demo.no_impact]).
  - discriminate.
  - by repeat constructor.
Defined.

(** * More of the entry point *)

Section ArgumentFacts.

Lemma indexOf_absent x args : x ∉ args -> indexOf x args = None.
Proof.
  induction args as [|a args IH]; [ done | ].
  intros [Hne Hni]%not_elem_of_cons. cbn [indexOf].
  destruct (String.eqb_spec a x) as [E | _]; [ by subst | ].
  by rewrite IH.
Qed.

Lemma indexOf_first x pre rest :
  x ∉ pre -> indexOf x (pre ++ x :: rest) = Some (length pre).
Proof.
  induction pre as [|a pre IH]; intros Hni; cbn [indexOf app length].
  - by rewrite String.eqb_refl.
  - apply not_elem_of_cons in Hni as [Hne Hni].
    destruct (String.eqb_spec a x) as [E | _]; [ by subst | ].
    by rewrite IH.
Qed.

Lemma digit_value_char d :
  (d < 10)%N -> digit_value 10 (pretty_N_char d) = Some (Z.of_N d).
Proof.
  intros Hd.
  assert (d = 0 \/ d = 1 \/ d = 2 \/ d = 3 \/ d = 4 \/ d = 5 \/ d = 6
          \/ d = 7 \/ d = 8 \/ d = 9)%N as H by lia.
  by repeat (destruct H as [-> | H]; [ done | ]); subst.
Qed.

(** Reading the digits that [pretty_N_go] writes. *)
Lemma digits_pretty_N_go x :
  (0 < x)%N ->
  exists k : nat, forall acc s,
    digits 10 acc (pretty_N_go x s)
    = digits 10 (Some (match acc with
                       | Some a => a * 10 ^ Z.of_nat k + Z.of_N x
                       | None => Z.of_N x
                       end)) s.
Proof.
  induction (N.lt_wf_0 x) as [x _ IH]. intros Hx.
  assert (x `mod` 10 < 10)%N as Hmod by (by apply N.mod_lt).
  assert (Z.of_N x = Z.of_N (x `div` 10) * 10 + Z.of_N (x `mod` 10)) as Hdm.
  { rewrite (N.div_mod x 10) at 1 by done. lia. }
  destruct (N.eq_dec (x `div` 10)%N 0%N) as [Hz | Hnz].
  - exists 1%nat. intros acc s.
    rewrite pretty_N_go_step, Hz, pretty_N_go_0 by done.
    cbn [digits]. rewrite (digit_value_char _ Hmod).
    rewrite Hz in Hdm. destruct acc; do 2 f_equal; lia.
  - destruct (IH (x `div` 10)%N) as [k Hk];
      [ apply N.div_lt; lia | lia | ].
    exists (S k). intros acc s.
    rewrite pretty_N_go_step, Hk by done.
    cbn [digits]. rewrite (digit_value_char _ Hmod).
    destruct acc; do 2 f_equal; [ | lia ].
    rewrite Nat2Z.inj_succ, Z.pow_succ_r by lia. lia.
Qed.

(** The first digit [pretty_N_go] writes is not a zero. *)
Lemma pretty_N_go_head x s :
  (0 < x)%N ->
  exists d t, (1 <= d <= 9)%N /\ pretty_N_go x s = String (pretty_N_char d) t.
Proof.
  revert s. induction (N.lt_wf_0 x) as [x _ IH]. intros s Hx.
  assert (x `mod` 10 < 10)%N as Hmod by (by apply N.mod_lt).
  rewrite pretty_N_go_step by done.
  destruct (N.eq_dec (x `div` 10)%N 0%N) as [Hz | Hnz].
  - rewrite Hz, pretty_N_go_0. exists (x `mod` 10)%N, s. split; [ | done ].
    pose proof (N.div_mod x 10 ltac:(done)). lia.
  - apply IH; [ apply N.div_lt; lia | by apply N.neq_0_lt_0 ].
Qed.

Lemma read_integer_digits d t :
  (1 <= d <= 9)%N ->
  read_integer (String (pretty_N_char d) t)
  = (fun n => 1 * n) <$> digits 10 None (String (pretty_N_char d) t)
  /\ read_integer (String "-" (String (pretty_N_char d) t))
     = (fun n => -1 * n) <$> digits 10 None (String (pretty_N_char d) t).
Proof.
  intros Hd.
  assert (d = 1 \/ d = 2 \/ d = 3 \/ d = 4 \/ d = 5 \/ d = 6
          \/ d = 7 \/ d = 8 \/ d = 9)%N as H by lia.
  by repeat (destruct H as [-> | H]; [ done | ]); subst.
Qed.

(** [parseInt] reads back every integer written in decimal. *)
Lemma read_integer_pretty (z : Z) : read_integer (pretty z) = Some z.
Proof.
  assert (forall p, digits 10 None (pretty_N_go (N.pos p) "") = Some (Z.pos p))
    as Hdig.
  { intros p. destruct (digits_pretty_N_go (N.pos p)) as [k Hk]; [ lia | ].
    by rewrite Hk. }
  destruct z as [|p|p]; [ done | | ].
  - change (pretty (Z.pos p)) with (pretty_N_go (N.pos p) "").
    destruct (pretty_N_go_head (N.pos p) "") as (d & t & Hd & E); [ lia | ].
    specialize (Hdig p). rewrite E in Hdig |- *.
    rewrite (proj1 (read_integer_digits d t Hd)), Hdig. cbn; f_equal; lia.
  - change (pretty (Z.neg p)) with ("-" +:+ pretty_N_go (N.pos p) "").
    destruct (pretty_N_go_head (N.pos p) "") as (d & t & Hd & E); [ lia | ].
    specialize (Hdig p). rewrite E in Hdig |- *.
    change ("-" +:+ String (pretty_N_char d) t)
      with (String "-" (String (pretty_N_char d) t)).
    rewrite (proj2 (read_integer_digits d t Hd)), Hdig. cbn; f_equal; lia.
Qed.

End ArgumentFacts.

(** X11. An option's value is the argument that follows the first
    occurrence of the option, whatever that argument is, provided it is
    not the empty string; an option that is absent, or that is the last
    argument at its first occurrence, has no value. *)
Theorem X11_option_value_first_occurrence
    (name : string) (pre rest : list string) (v : string) :
  name ∉ pre ->
  option_value name (pre ++ name :: v :: rest)
  = (if String.eqb v "" then None else Some v)
  /\ option_value name (pre ++ [name]) = None
  /\ option_value name pre = None.
Proof.
  intros Hni. unfold option_value. split; [ | split ].
  - rewrite indexOf_first by done.
    rewrite lookup_app_r by lia.
    replace (length pre + 1 - length pre)%nat with 1%nat by lia.
    cbn. unfold truthy. by destruct (String.eqb v "").
  - rewrite indexOf_first by done.
    rewrite lookup_app_r by lia.
    by replace (length pre + 1 - length pre)%nat with 1%nat by lia.
  - by rewrite indexOf_absent.
Qed.

Lemma X11_witness :
  option_value "--max-pages"
    ["https://example.com"; "--max-pages"; "--output"; "--max-pages"; "7"]
  = Some "--output".
Proof.
  exact (proj1 (X11_option_value_first_occurrence "--max-pages"
                  ["https://example.com"] ["--max-pages"; "7"] "--output"
                  ltac:(by intros [?|[]%elem_of_nil]%elem_of_cons))).
Defined.

(** X12. Every integer of magnitude below [2^53] written in decimal
    after [--max-pages] is read back exactly: the budget is that
    integer, except that [0] gives 10. *)
Theorem X12_budget_round_trip (startUrl : string) (rest : list string) (z : Z) :
  startUrl <> "--max-pages" ->
  Z.abs z < 2 ^ 53 ->
  maxPages_of_args (startUrl :: "--max-pages" :: pretty z :: rest)
  = (if z =? 0 then 10 else z).
Proof.
  intros Hne Hz. unfold maxPages_of_args, budget_of_args.
  assert ("--max-pages" ∉ [startUrl]) as Hni.
  { intros [E | []%elem_of_nil]%elem_of_cons. by subst. }
  assert (String.eqb (pretty z) "" = false) as Hv.
  { apply String.eqb_neq. intros E.
    pose proof (read_integer_pretty z) as P. by rewrite E in P. }
  unfold option_value.
  change (startUrl :: "--max-pages" :: pretty z :: rest)
    with ([startUrl] ++ "--max-pages" :: pretty z :: rest).
  rewrite (indexOf_first "--max-pages" [startUrl]) by done.
  cbn [lookup]. rewrite lookup_app_r by (cbn; lia).
  cbn. unfold truthy. rewrite Hv. cbn. unfold parseInt.
  rewrite read_integer_pretty, round_to_double_exact by done.
  cbn. by destruct (Z.eqb_spec z 0).
Qed.

Lemma X12_witness :
  maxPages_of_args ["https://example.com"; "--max-pages"; pretty 1234567890123]
  = 1234567890123.
Proof.
  by apply (X12_budget_round_trip "https://example.com" [] 1234567890123).
Defined.

Section MainFacts.

Variable URL_parse : string -> option URL.
Variable web : World.

Lemma crawl_keeps_handle_calls fuel m url m' :
  crawl URL_parse web fuel m url = Some m' ->
  List.filter is_handle_close (effects m')
  = List.filter is_handle_close (effects m).
Proof.
  apply (crawl_steps URL_parse web
           (fun m m' => List.filter is_handle_close (effects m')
                        = List.filter is_handle_close (effects m))).
  - done.
  - intros m1 m2 m3 H12 H23. by rewrite H23.
  - intros m0 url0 m1 next _ _ O. by destruct (open_page_lines web _ _ _ _ O).
Qed.

Lemma crawl_run_facts m url :
  continues m (crawl_run URL_parse web m url)
  /\ List.filter is_handle_close (effects (crawl_run URL_parse web m url))
     = List.filter is_handle_close (effects m).
Proof.
  pose proof (crawl_run_spec URL_parse web m url) as H. split.
  - by eapply crawl_continues.
  - by eapply crawl_keeps_handle_calls.
Qed.

End MainFacts.

(** X13. Whenever [main] ends through [process.exit(1)] no handle has
    been closed: the exit inside the [catch] ends the process before
    the [finally] block, so after a failed report write the browser and
    the context that were opened are never closed by the program. *)
Theorem X13_exit_skips_cleanup
    (URL_parse : string -> option URL) (web : World)
    (toFixed : nat -> float -> string) (toLocaleString : Z -> string)
    (Date_parse : string -> option Z) (mw : MainWorld)
    (args : list string) (m : Machine) :
  let r := main URL_parse web toFixed toLocaleString Date_parse mw args in
  outcome r = Exited 1 ->
  crawler r = Some m ->
  List.filter is_handle_close (effects m) = []
  /\ (mw_launch mw = true -> mw_newContext mw = true ->
      browser (this m) = true /\ context (this m) = true).
Proof.
  unfold main.
  destruct args as [|startUrl rest]; [ done | ].
  destruct (negb (truthy startUrl) || startsWith startUrl "--"); [ done | ].
  unfold construct.
  destruct (URL_parse startUrl) as [u|]; [ | done ]. cbn zeta.
  set (c := mkCrawler false false ∅ (url_origin u) _ []).
  unfold initialize.
  destruct (mw_launch mw), (mw_newContext mw); cbn;
    try (intros _ [= <-]; by split).
  match goal with
  | |- context [crawl_run URL_parse web ?m0 startUrl] =>
      destruct (crawl_run_facts URL_parse web m0 startUrl)
        as ((_ & _ & _ & Hb & Hx) & Hf);
      set (m1 := crawl_run URL_parse web m0 startUrl) in *
  end.
  destruct (mw_write mw); cbn.
  - destruct (close (mw_close_context mw) (mw_close_browser mw) m1) as [m2 []];
      by cbn.
  - intros _ [= <-]. split; [ by rewrite Hf | ]. intros _ _. by rewrite Hb, Hx.
Qed.

Lemma X13_witness :
  let r := main SimpleURL.parse Demo.site Demo.toFixed Demo.toLocaleString
             Demo.Date_parse
             (mkMainWorld true true false true true "2025-09-29T23:42:29.123Z" 0)
             ["https://example.com"; "--max-pages"; "2"] in
  exists m, crawler r = Some m
            /\ List.filter is_handle_close (effects m) = []
            /\ browser (this m) = true.
Proof.
  intros r. destruct (crawler r) as [m|] eqn:E; [ | by vm_compute in E ].
  exists m. split; [ done | ].
  destruct (X13_exit_skips_cleanup SimpleURL.parse Demo.site Demo.toFixed
              Demo.toLocaleString Demo.Date_parse
              (mkMainWorld true true false true true "2025-09-29T23:42:29.123Z" 0)
              ["https://example.com"; "--max-pages"; "2"] m) as [Hf Hb].
  - by vm_compute.
  - exact E.
  - split; [ exact Hf | ]. by destruct Hb.
Defined.

(** X14. The promise of [main] is fulfilled exactly when the arguments
    name a start URL that parses, the browser and its context could be
    opened, the report could be written, and both close calls
    succeeded. *)
Theorem X14_main_fulfilled_iff
    (URL_parse : string -> option URL) (web : World)
    (toFixed : nat -> float -> string) (toLocaleString : Z -> string)
    (Date_parse : string -> option Z) (mw : MainWorld) (args : list string) :
  outcome (main URL_parse web toFixed toLocaleString Date_parse mw args)
  = Fulfilled
  <-> usage_error args = false
      /\ (exists startUrl rest, args = startUrl :: rest
                                /\ is_Some (URL_parse startUrl))
      /\ mw_launch mw = true /\ mw_newContext mw = true
      /\ mw_write mw = true
      /\ mw_close_context mw = true /\ mw_close_browser mw = true.
Proof.
  unfold main, usage_error.
  destruct args as [|startUrl rest].
  { split; [ done | ]. by intros (? & _). }
  destruct (negb (truthy startUrl) || startsWith startUrl "--").
  { split; [ done | ]. by intros (? & _). }
  unfold construct.
  destruct (URL_parse startUrl) as [u|] eqn:P; cycle 1.
  { split; [ done | ].
    intros (_ & (s & r & Heq & [x Hx]) & _). simplify_eq. }
  cbn zeta. set (c := mkCrawler false false ∅ (url_origin u) _ []).
  unfold initialize.
  destruct (mw_launch mw), (mw_newContext mw); cbn;
    try (split; [ done | ]; by intros (_ & _ & ? & ? & _)).
  match goal with
  | |- context [crawl_run URL_parse web ?m0 startUrl] =>
      destruct (crawl_run_facts URL_parse web m0 startUrl)
        as ((_ & _ & _ & Hb & Hx) & _);
      set (m1 := crawl_run URL_parse web m0 startUrl) in *
  end.
  cbn in Hb, Hx.
  destruct (mw_write mw); cbn;
    [ | split; [ done | ]; by intros (_ & _ & _ & _ & ? & _) ].
  unfold close. rewrite Hx. cbn.
  destruct (mw_close_context mw); cbn.
  - rewrite Hb. destruct (mw_close_browser mw); cbn.
    + split; [ | done ]. intros _. repeat split; eauto.
    + split; [ done | ]. by intros (_ & _ & _ & _ & _ & _ & ?).
  - split; [ done | ]. by intros (_ & _ & _ & _ & _ & ? & _).
Qed.

Lemma X14_witness :
  outcome (main SimpleURL.parse Demo.site Demo.toFixed Demo.toLocaleString
             Demo.Date_parse Demo.quiet_world ["https://example.com"])
  = Fulfilled.
Proof.
  apply (X14_main_fulfilled_iff SimpleURL.parse Demo.site Demo.toFixed
           Demo.toLocaleString Demo.Date_parse Demo.quiet_world
           ["https://example.com"]).
  repeat split; try reflexivity.
  exists "https://example.com", []. split; [ reflexivity | by eexists ].
Defined.

(** X15. The promise of [main] is rejected, with nothing to handle the
    rejection, exactly when the start URL does not parse (the exception
    of [new URL] at line 380 is outside the [try]), or when the whole
    run succeeded and one of the two close calls of the [finally] block
    threw. *)
Theorem X15_main_rejected_iff
    (URL_parse : string -> option URL) (web : World)
    (toFixed : nat -> float -> string) (toLocaleString : Z -> string)
    (Date_parse : string -> option Z) (mw : MainWorld) (args : list string) :
  outcome (main URL_parse web toFixed toLocaleString Date_parse mw args)
  = Rejected
  <-> usage_error args = false
      /\ exists startUrl rest,
           args = startUrl :: rest
           /\ (URL_parse startUrl = None
               \/ (mw_launch mw = true /\ mw_newContext mw = true
                   /\ mw_write mw = true
                   /\ (mw_close_context mw = false
                       \/ mw_close_browser mw = false))).
Proof.
  unfold main, usage_error.
  destruct args as [|startUrl rest].
  { split; [ done | ]. by intros (? & _). }
  destruct (negb (truthy startUrl) || startsWith startUrl "--").
  { split; [ done | ]. by intros (? & _). }
  unfold construct.
  destruct (URL_parse startUrl) as [u|] eqn:P; cycle 1.
  { split; [ | done ]. intros _. split; [ done | ].
    exists startUrl, rest. split; [ done | by left ]. }
  cbn zeta. set (c := mkCrawler false false ∅ (url_origin u) _ []).
  assert (forall Q : Prop,
            (false = false
             /\ exists s r, startUrl :: rest = s :: r
                            /\ (URL_parse s = None \/ Q)) <-> Q) as Hshape.
  { intros Q. split.
    - intros (_ & s & r & Heq & [Hn | HQ]); simplify_eq. exact HQ.
    - intros HQ. split; [ done | ]. exists startUrl, rest. split; [ done | by right ]. }
  rewrite Hshape. clear Hshape.
  unfold initialize.
  destruct (mw_launch mw), (mw_newContext mw); cbn;
    try (split; [ done | ]; by intros (? & ? & _)).
  match goal with
  | |- context [crawl_run URL_parse web ?m0 startUrl] =>
      destruct (crawl_run_facts URL_parse web m0 startUrl)
        as ((_ & _ & _ & Hb & Hx) & _);
      set (m1 := crawl_run URL_parse web m0 startUrl) in *
  end.
  cbn in Hb, Hx.
  destruct (mw_write mw); cbn;
    [ | split; [ done | ]; by intros (_ & _ & ? & _) ].
  unfold close. rewrite Hx. cbn.
  destruct (mw_close_context mw); cbn.
  - rewrite Hb. destruct (mw_close_browser mw); cbn.
    + split; [ done | ]. by intros (_ & _ & _ & [? | ?]).
    + split; [ | done ]. intros _. repeat split; by right.
  - split; [ | done ]. intros _. repeat split; by left.
Qed.

Lemma X15_witness :
  outcome (main SimpleURL.parse Demo.site Demo.toFixed Demo.toLocaleString
             Demo.Date_parse Demo.quiet_world ["example.com"])
  = Rejected.
Proof.
  apply (X15_main_rejected_iff SimpleURL.parse Demo.site Demo.toFixed
           Demo.toLocaleString Demo.Date_parse Demo.quiet_world ["example.com"]).
  split; [ reflexivity | ].
  exists "example.com", []. split; [ reflexivity | by left ].
Defined.

(** X16. [close] does not clear the handles: after it the crawler still
    passes the first guard of [crawl] exactly as before, and a second
    [close] calls [close()] on the same handles once more. *)
Theorem X16_close_keeps_the_handles (a b : bool) (m : Machine) :
  let calls := (if browser (this m) then [CallCloseBrowser] else [])
               ++ (if context (this m) then [CallCloseContext] else []) in
  not_ready (this (fst (close a b m))) = not_ready (this m)
  /\ close true true (fst (close true true m))
     = (mkMachine (this m) (calls ++ calls ++ effects m) (history m), true).
Proof.
  unfold close.
  destruct m as [c evs hist]. cbn.
  destruct (context c) eqn:C, (browser c) eqn:B, a, b;
    cbn; repeat (progress (rewrite ?C, ?B; cbn)); done.
Qed.

Lemma X16_witness :
  effects (fst (close true true (fst (close true true (Demo.start 10)))))
  = [ CallCloseBrowser; CallCloseContext; CallCloseBrowser; CallCloseContext ].
Proof.
  by rewrite (proj2 (X16_close_keeps_the_handles true true (Demo.start 10))).
Defined.

(** * More of the classifiers *)

Section DotFacts.

Lemma has_dot_app s t : has_dot (s +:+ t) = has_dot s || has_dot t.
Proof.
  induction s as [|c s IH]; [ done | ].
  change (String c s +:+ t) with (String c (s +:+ t)).
  cbn [has_dot]. by rewrite IH, orb_assoc.
Qed.

Lemma lower_ascii_dot c : Ascii.eqb (lower_ascii c) "." = Ascii.eqb c ".".
Proof. by destruct c as [[] [] [] [] [] [] [] []]. Qed.

Lemma has_dot_lower s : has_dot (toLowerCase s) = has_dot s.
Proof.
  induction s as [|c s IH]; [ done | ].
  change (toLowerCase (String c s)) with (String (lower_ascii c) (toLowerCase s)).
  cbn [has_dot]. by rewrite IH, lower_ascii_dot.
Qed.

Lemma fileExtensions_dotted : Forall (fun ext => has_dot ext = true) fileExtensions.
Proof. repeat constructor. Qed.

End DotFacts.

(** X17. A URL whose path holds no full stop is always taken for a web
    page: every deny-listed extension starts with one. *)
Theorem X17_path_without_dot_is_a_web_page
    (URL_parse : string -> option URL) (url : string) (u : URL) :
  URL_parse url = Some u ->
  has_dot (url_pathname u) = false ->
  isWebPage URL_parse url = true.
Proof.
  intros Hp Hd. unfold isWebPage. rewrite Hp.
  apply negb_true_iff. apply not_true_is_false.
  intros (ext & Hin & He)%existsb_exists.
  apply endsWith_spec in He as [q Hq].
  assert (has_dot (toLowerCase (url_pathname u)) = true) as Hlow.
  { rewrite Hq, has_dot_app.
    pose proof fileExtensions_dotted as D. rewrite Forall_forall in D.
    rewrite (D ext) by (by apply list_elem_of_In). by rewrite orb_true_r. }
  rewrite has_dot_lower in Hlow. congruence.
Qed.

Lemma X17_witness :
  isWebPage SimpleURL.parse "https://example.com/about/team?file=a.pdf#x.zip"
  = true.
Proof.
  by eapply (X17_path_without_dot_is_a_web_page SimpleURL.parse).
Defined.

(** * Completeness of the crawl below the budget *)

Section Completeness.

Variable URL_parse : string -> option URL.
Variable web : World.

Lemma handled_mono c c' link :
  grows c c' -> handled URL_parse c link -> handled URL_parse c' link.
Proof.
  intros [V _ B _]. unfold handled. rewrite B.
  intros [H | H]; [ left; by apply V | by right ].
Qed.

Lemma budget_left_before m m' :
  continues m m' ->
  budget_exhausted (this m') = false -> budget_exhausted (this m) = false.
Proof.
  intros ([V _ _ M] & _). unfold budget_exhausted. rewrite M.
  intros H%Z.leb_gt. apply Z.leb_gt. apply subseteq_size in V. lia.
Qed.

Lemma ready_before m m' :
  continues m m' -> not_ready (this m') = false -> not_ready (this m) = false.
Proof.
  intros Hc. pose proof (budget_left_before _ _ Hc) as Hb.
  destruct Hc as (_ & _ & _ & B & C). unfold not_ready. rewrite B, C.
  intros H. apply orb_false_elim in H as [H1 H2]. by rewrite H1, Hb.
Qed.

(** A call that leaves the crawler ready has dealt with its URL. *)
Lemma crawl_handles fuel m url m' :
  crawl URL_parse web fuel m url = Some m' ->
  not_ready (this m') = false ->
  handled URL_parse (this m') url.
Proof.
  intros Hc Hready.
  pose proof (crawl_continues URL_parse web _ _ _ _ Hc) as Hcont.
  pose proof (ready_before _ _ Hcont Hready) as G1.
  destruct Hcont as (G & _).
  destruct fuel as [|fuel]; [ done | ]. simpl in Hc. rewrite G1 in Hc.
  destruct (rejected URL_parse (this m) (normalizeUrl URL_parse url)) eqn:G2.
  - simplify_eq. unfold handled, rejected in *.
    apply orb_true_iff in G2 as [G2 | G2]; [ apply orb_true_iff in G2 as [G2 | G2] | ].
    + left. by apply bool_decide_eq_true in G2.
    + right. left. by apply negb_true_iff.
    + right. right. by apply negb_true_iff.
  - destruct (open_page web m (normalizeUrl URL_parse url)) as [m1 next] eqn:O.
    assert (continues m1 m') as (G' & _).
    { destruct next as [links|]; [ | simplify_eq; apply continues_refl ].
      eapply (for_links_steps continues); eauto using continues_refl, continues_trans.
      intros. by eapply crawl_continues. }
    left. apply (grows_visited _ _ G').
    destruct (open_page_shape web _ _ _ _ O) as [T _ _ _ | r _ T _ _ _];
      rewrite T; cbn; apply elem_of_union_l; by apply elem_of_singleton.
Qed.

Lemma for_links_continues fuel links m m' :
  for_links (crawl URL_parse web fuel) m links = Some m' -> continues m m'.
Proof.
  apply (for_links_steps continues); eauto using continues_refl, continues_trans.
  intros. by eapply crawl_continues.
Qed.

(** A loop that leaves the crawler ready has dealt with every link. *)
Lemma for_links_handles fuel links m m' :
  for_links (crawl URL_parse web fuel) m links = Some m' ->
  not_ready (this m') = false ->
  forall link, link ∈ links -> handled URL_parse (this m') link.
Proof.
  revert m. induction links as [|l ls IH]; intros m Hf Hready link Hin.
  - by apply elem_of_nil in Hin.
  - pose proof (for_links_continues _ _ _ _ Hf) as Hcont.
    pose proof (ready_before _ _ Hcont Hready) as G1.
    simpl in Hf.
    assert (budget_exhausted (this m) = false) as Hb.
    { unfold not_ready in G1. by apply orb_false_elim in G1 as [_ ?]. }
    rewrite Hb in Hf.
    destruct (crawl URL_parse web fuel m l) as [m2|] eqn:Hc; [ | done ].
    pose proof (for_links_continues _ _ _ _ Hf) as Hcont2.
    apply elem_of_cons in Hin as [-> | Hin].
    + eapply handled_mono; [ exact (proj1 Hcont2) | ].
      eapply crawl_handles; [ exact Hc | ]. by eapply ready_before.
    + by eapply IH.
Qed.

End Completeness.

(** X18. Below the budget the crawl is complete for the pages it
    expands: when a page was analysed and closed normally and [crawl]
    returns with the crawler still ready (budget not reached), every
    anchor of that page that starts with [http] has its canonical form
    in the visited set, unless that form is outside the base origin or
    is not a web page. *)
Theorem X18_links_are_followed
    (URL_parse : string -> option URL) (web : World)
    (fuel : nat) (m m' : Machine) (url : string)
    (axeResults : AxeResults) (anchors : list string) :
  let n := normalizeUrl URL_parse url in
  let w := web (LogCrawling n (size ({[ n ]} ∪ visitedUrls (this m)))
                            (maxPages (this m)) :: effects m) n in
  rejected URL_parse (this m) n = false ->
  pb_newPage w = true -> pb_goto w = true -> pb_axe w = Some axeResults ->
  pb_anchors w = Some anchors -> pb_close w = true ->
  crawl URL_parse web (S fuel) m url = Some m' ->
  not_ready (this m') = false ->
  forall a, a ∈ anchors -> startsWith a "http" = true ->
            handled URL_parse (this m') a.
Proof.
  intros n w G2 Hnew Hgoto Haxe Hanchors Hclose Hc Hready a Ha Hhttp.
  pose proof (crawl_continues URL_parse web _ _ _ _ Hc) as Hcont.
  pose proof (ready_before _ _ Hcont Hready) as G1.
  destruct (open_page web m n) as [m1 next] eqn:O.
  pose proof (crawl_after_open URL_parse web _ _ _ _ _ _ G1 G2 O Hc) as Hcont1.
  pose proof (ready_before _ _ Hcont1 Hready) as G1'.
  assert (next = Some (extractLinks anchors)) as ->.
  { revert O G1'. unfold open_page, catch_crawl, not_ready. cbn. fold n. fold w.
    rewrite Hnew, Hgoto, Haxe, Hanchors, Hclose. cbn.
    destruct (pb_lighthouse w); cbn;
      match goal with |- context [budget_exhausted ?c] =>
        destruct (budget_exhausted c) eqn:E end; cbn;
      intros [= <- <-]; cbn; rewrite ?E, ?orb_true_r; done. }
  simpl in Hc. fold n in Hc. rewrite G1, G2, O in Hc.
  eapply for_links_handles; eauto.
  unfold extractLinks. apply list_elem_of_In, filter_In. split; [ | done ].
  by apply list_elem_of_In.
Qed.

Lemma X18_witness :
  handled SimpleURL.parse (this (Demo.run Demo.site 10))
          "https://example.com/a#end"
  /\ handled SimpleURL.parse (this (Demo.run Demo.site 10))
             "https://other.org/x".
Proof.
  pose proof (X18_links_are_followed SimpleURL.parse Demo.site 10 (Demo.start 10)
                (Demo.run Demo.site 10) "https://example.com" Demo.no_violation
                [ "https://example.com/a#top"; "https://other.org/x";
                  "https://example.com/doc.pdf"; "mailto:me@example.com";
                  "https://example.com/a#end"; "https://example.com/b" ]) as H.
  cbv zeta in H.
  specialize (H ltac:(by vm_compute) ltac:(by vm_compute) ltac:(by vm_compute)
                ltac:(by vm_compute) ltac:(by vm_compute) ltac:(by vm_compute)
                (demo_run_spec Demo.site 10) ltac:(by vm_compute)).
  split; apply H; try (by vm_compute); apply list_elem_of_In; cbn; tauto.
Defined.

(** * Numbers followed by other text *)

Section PrefixFacts.

Lemma append_assoc (s t u : string) : (s +:+ t) +:+ u = s +:+ (t +:+ u).
Proof.
  induction s as [|c s IH]; [ done | ].
  change (String c ((s +:+ t) +:+ u) = String c (s +:+ (t +:+ u))).
  by rewrite IH.
Qed.

Lemma pretty_N_go_app x s : pretty_N_go x s = pretty_N_go x "" +:+ s.
Proof.
  revert s. induction (N.lt_wf_0 x) as [x _ IH]. intros s.
  destruct (N.eq_dec x 0%N) as [-> | Hx]; [ done | ].
  assert (0 < x)%N as Hpos by (by apply N.neq_0_lt_0).
  rewrite (pretty_N_go_step x s), (pretty_N_go_step x "") by done.
  rewrite (IH (x `div` 10)%N) by (apply N.div_lt; lia).
  rewrite (IH (x `div` 10)%N ltac:(apply N.div_lt; lia) (String _ "")).
  by rewrite append_assoc.
Qed.

Lemma digits_stop acc t :
  starts_with_digit t = false -> digits 10 (Some acc) t = Some acc.
Proof.
  destruct t as [|c t]; [ done | ]. cbn [starts_with_digit digits].
  intros H%bool_decide_eq_false.
  destruct (digit_value 10 c); [ | done ]. destruct H. by eexists.
Qed.

Lemma read_integer_pretty_prefix (z : Z) (t : string) :
  z <> 0 -> starts_with_digit t = false ->
  read_integer (pretty z +:+ t) = Some z.
Proof.
  intros Hz Ht.
  assert (forall p, digits 10 None (pretty_N_go (N.pos p) t) = Some (Z.pos p))
    as Hdig.
  { intros p. destruct (digits_pretty_N_go (N.pos p)) as [k Hk]; [ lia | ].
    rewrite Hk. by apply digits_stop. }
  destruct z as [|p|p]; [ done | | ].
  - change (pretty (Z.pos p)) with (pretty_N_go (N.pos p) "").
    rewrite <- pretty_N_go_app.
    destruct (pretty_N_go_head (N.pos p) t) as (d & t' & Hd & E); [ lia | ].
    specialize (Hdig p). rewrite E in Hdig |- *.
    rewrite (proj1 (read_integer_digits d t' Hd)), Hdig. cbn; f_equal; lia.
  - change (pretty (Z.neg p)) with ("-" +:+ pretty_N_go (N.pos p) "").
    rewrite append_assoc, <- pretty_N_go_app.
    destruct (pretty_N_go_head (N.pos p) t) as (d & t' & Hd & E); [ lia | ].
    specialize (Hdig p). rewrite E in Hdig |- *.
    change ("-" +:+ String (pretty_N_char d) t')
      with (String "-" (String (pretty_N_char d) t')).
    rewrite (proj2 (read_integer_digits d t' Hd)), Hdig. cbn; f_equal; lia.
Qed.

End PrefixFacts.

(** X19. Text after the digits of a [--max-pages] value is ignored: a
    non-zero integer of magnitude below [2^53] written in decimal and
    followed by anything that does not start with a digit gives that
    integer as the budget. *)
Theorem X19_budget_ignores_trailing_text
    (startUrl : string) (rest : list string) (z : Z) (t : string) :
  startUrl <> "--max-pages" ->
  z <> 0 -> Z.abs z < 2 ^ 53 ->
  starts_with_digit t = false ->
  maxPages_of_args (startUrl :: "--max-pages" :: (pretty z +:+ t) :: rest) = z.
Proof.
  intros Hne Hz Hb Ht. unfold maxPages_of_args, budget_of_args.
  assert ("--max-pages" ∉ [startUrl]) as Hni.
  { intros [E | []%elem_of_nil]%elem_of_cons. by subst. }
  pose proof (read_integer_pretty_prefix z t Hz Ht) as P.
  assert (String.eqb (pretty z +:+ t) "" = false) as Hv.
  { apply String.eqb_neq. intros E. by rewrite E in P. }
  unfold option_value.
  change (startUrl :: "--max-pages" :: (pretty z +:+ t) :: rest)
    with ([startUrl] ++ "--max-pages" :: (pretty z +:+ t) :: rest).
  rewrite (indexOf_first "--max-pages" [startUrl]) by done.
  cbn [lookup]. rewrite lookup_app_r by (cbn; lia).
  cbn. unfold truthy. rewrite Hv. cbn. unfold parseInt.
  rewrite P, round_to_double_exact by done.
  cbn. by destruct (Z.eqb_spec z 0).
Qed.

Lemma X19_witness :
  maxPages_of_args ["https://example.com"; "--max-pages"; "25.9 pages"] = 25.
Proof.
  by apply (X19_budget_ignores_trailing_text "https://example.com" [] 25
              ".9 pages").
Defined.
